(** * Solar As Produced Calculator: a shallow embedding of
      [Solar_As_Produced_Calculator.py] and the properties of its
      charge-calculation and period-aggregation pipeline.

    Runs.  Streamlit evaluates the script from top to bottom on what the
    page holds (the uploaded file, the edited guarantee table, the three
    rates, the button); [script] is one such evaluation and [Outcome] says
    where it ended.

    Numbers.  A [float64] cell is one of Rocq's primitive binary64 floats,
    whose operations are the IEEE 754 ones numpy and Python use.  A decimal
    literal such as [2.9] stands for the nearest binary64 value, as it does
    in Python.  pandas reads a column of whole numbers as [int64]: a cell
    of such a column is held here as the float of the same number, with a
    flag that says it is an integer; a column is [int64] when all its cells
    are flagged.  The script's arithmetic on an [int64] column is integer
    arithmetic where numpy's is (the product of line 65 when both columns
    are [int64], the sums of the [kWh] column), wrapping at 64 bits, and a
    conversion to [float64] everywhere else.  Integer cells that no
    binary64 float holds exactly, and columns of other integer types,
    which pandas makes of whole numbers of 2^63 and more, are outside the
    model.

    Dates.  A pandas [Timestamp] is modelled by its civil fields (year,
    month, day, nanoseconds since midnight) in the proleptic Gregorian
    calendar.  An operation whose result leaves the range a nanosecond
    [Timestamp] can hold raises [OutOfBoundsDatetime].  The missing value
    [NaT] is outside the model.

    Library calls.  [merge], [pivot_table], [sum], [clip], [sort_values],
    [strftime] and [to_datetime] are pandas functions; each is modelled by
    its behaviour on the call that the script makes.  The sums of
    [pivot_table] and [groupby] are the compensated sums of pandas'
    [group_sum], those of [DataFrame.sum] the pairwise sums of numpy; both
    skip NaN cells. *)

From Stdlib Require Import ZArith List Bool Lia String Ascii Floats.
From Stdlib Require Import Sorted Permutation.
Import ListNotations.

Set Warnings "-inexact-float".

Local Open Scope Z_scope.

(** ** Exceptions and the error monad

    The script raises nothing itself; the Python and pandas operations it
    calls do. *)

Inductive exception : Type :=
| ValueError (msg : string)
| OutOfBoundsDatetime
| ZeroDivisionError.

Inductive result (A : Type) : Type :=
| Ok (a : A)
| Raise (e : exception).

Arguments Ok {A} a.
Arguments Raise {A} e.

Definition bind {A B : Type} (m : result A) (k : A -> result B) : result B :=
  match m with
  | Ok a => k a
  | Raise e => Raise e
  end.

Notation "x <- m ;; k" := (bind m (fun x => k))
  (at level 61, m at next level, right associativity).

Fixpoint mapM {A B : Type} (f : A -> result B) (l : list A) : result (list B) :=
  match l with
  | [] => Ok []
  | a :: l' => b <- f a ;; bs <- mapM f l' ;; Ok (b :: bs)
  end.

(** ** Timestamps *)

Module Calendar.

Record Timestamp : Type := mkTimestamp {
  year : Z;
  month : Z;
  day : Z;
  nanos : Z   (* time of day, in nanoseconds since midnight *)
}.

Definition ns_per_day : Z := 86400 * 1000000000.

Definition is_leap (y : Z) : bool :=
  ((y mod 4 =? 0) && negb (y mod 100 =? 0)) || (y mod 400 =? 0).

Definition days_in_month (y m : Z) : Z :=
  if m =? 2 then (if is_leap y then 29 else 28)
  else if (m =? 4) || (m =? 6) || (m =? 9) || (m =? 11) then 30
  else 31.

(** The civil fields of a real calendar day and a time of day. *)
Definition valid (t : Timestamp) : bool :=
  (1 <=? month t) && (month t <=? 12) &&
  (1 <=? day t) && (day t <=? days_in_month (year t) (month t)) &&
  (0 <=? nanos t) && (nanos t <? ns_per_day).

(** Chronological comparison of two timestamps, field by field. *)
Definition compare (a b : Timestamp) : comparison :=
  match year a ?= year b with
  | Eq => match month a ?= month b with
          | Eq => match day a ?= day b with
                  | Eq => nanos a ?= nanos b
                  | c => c
                  end
          | c => c
          end
  | c => c
  end.

Definition ltb (a b : Timestamp) : bool :=
  match compare a b with Lt => true | _ => false end.

Definition leb (a b : Timestamp) : bool :=
  match compare a b with Gt => false | _ => true end.

(** [Timestamp.min] and [Timestamp.max]: the instants 2^63 - 1
    nanoseconds before and after 1970, 1677-09-21 00:12:43.145224193 and
    2262-04-11 23:47:16.854775807. *)
Definition min_timestamp : Timestamp :=
  mkTimestamp 1677 9 21 763145224193.

Definition max_timestamp : Timestamp :=
  mkTimestamp 2262 4 11 85636854775807.

Definition in_bounds (t : Timestamp) : bool :=
  leb min_timestamp t && leb t max_timestamp.

(** [Timestamp.replace(day=d)]: raises [ValueError] when the month has no
    such day and [OutOfBoundsDatetime] when the new instant cannot be
    held; every other field is kept. *)
Definition replace_day (t : Timestamp) (d : Z) : result Timestamp :=
  if (1 <=? d) && (d <=? days_in_month (year t) (month t))
  then
    let t' := mkTimestamp (year t) (month t) d (nanos t) in
    if in_bounds t' then Ok t' else Raise OutOfBoundsDatetime
  else Raise (ValueError "day is out of range for month").

(** The calendar arithmetic of [pd.DateOffset(months=n)]: the month is
    moved by [n], the year follows, the day is cut back to the length of
    the new month and the time of day is kept. *)
Definition add_months (t : Timestamp) (n : Z) : Timestamp :=
  let m0 := month t - 1 + n in
  let y := year t + m0 / 12 in
  let m := m0 mod 12 + 1 in
  mkTimestamp y m (Z.min (day t) (days_in_month y m)) (nanos t).

(** [t + pd.DateOffset(months=n)]: raises [OutOfBoundsDatetime] when the
    moved instant cannot be held. *)
Definition date_offset (t : Timestamp) (n : Z) : result Timestamp :=
  let t' := add_months t n in
  if in_bounds t' then Ok t' else Raise OutOfBoundsDatetime.

(** [Timestamp.normalize()]: the same day at midnight. *)
Definition normalize (t : Timestamp) : Timestamp :=
  mkTimestamp (year t) (month t) (day t) 0.

(** *** ['%b-%y'] *)

Definition month_abbr : list string :=
  ["Jan"; "Feb"; "Mar"; "Apr"; "May"; "Jun";
   "Jul"; "Aug"; "Sep"; "Oct"; "Nov"; "Dec"]%string.

Definition digit (d : Z) : ascii := ascii_of_nat (48 + Z.to_nat d).

Definition two_digits (n : Z) : string :=
  String (digit (n / 10)) (String (digit (n mod 10)) EmptyString).

(** [t.strftime('%b-%y')]: the English month abbreviation, a dash and the
    year without its century, zero padded. *)
Definition strftime_b_y (t : Timestamp) : string :=
  (nth (Z.to_nat (month t - 1)) month_abbr "" ++ "-" ++
   two_digits (year t mod 100))%string.

Definition digit_value (c : ascii) : option Z :=
  let n := Z.of_nat (nat_of_ascii c) in
  if (48 <=? n) && (n <=? 57) then Some (n - 48) else None.

Fixpoint month_of_abbr (s : string) (names : list string) (m : Z) : option Z :=
  match names with
  | [] => None
  | name :: rest =>
      if String.eqb s name then Some m else month_of_abbr s rest (m + 1)
  end.

(** The century rule of [%y]: 00..68 are 2000..2068, 69..99 are
    1969..1999. *)
Definition pivot_year (yy : Z) : Z :=
  if yy <=? 68 then 2000 + yy else 1900 + yy.

(** [pd.to_datetime(s, format='%b-%y')]: the first instant of the month
    the label names; [ValueError] when the text does not match the format.
    Month names are matched here in the spelling [strftime] produces. *)
Definition strptime_b_y (s : string) : result Timestamp :=
  match s with
  | String a (String b (String c (String "-" (String d1 (String d2 EmptyString))))) =>
      match month_of_abbr (String a (String b (String c EmptyString))) month_abbr 1,
            digit_value d1, digit_value d2 with
      | Some m, Some v1, Some v2 =>
          Ok (mkTimestamp (pivot_year (10 * v1 + v2)) m 1 0)
      | _, _, _ => Raise (ValueError "time data does not match format")
      end
  | _ => Raise (ValueError "time data does not match format")
  end.

End Calendar.

Import Calendar.

(** ** Step 5 of the script: the custom supply period *)

(** [get_supply_period]: the period of a date runs from the 26th to the
    25th; it returns the label of the period end and the period end. *)
Definition get_supply_period (date : Timestamp) : result (string * Timestamp) :=
  if 26 <=? day date then
    period_start <- replace_day date 26 ;;
    shifted <- date_offset period_start 1 ;;
    period_end <- replace_day shifted 25 ;;
    Ok (strftime_b_y period_end, period_end)
  else
    period_end <- replace_day date 25 ;;
    shifted <- date_offset period_end (-1) ;;
    period_start <- replace_day shifted 26 ;;
    Ok (strftime_b_y period_end, period_end).

(** ** Integer columns *)

(** A 64-bit integer result, as C and numpy wrap it. *)
Definition wrap64 (z : Z) : Z := (z + 2 ^ 63) mod 2 ^ 64 - 2 ^ 63.

(** The integer an [int64] cell holds, read off the float that stands for
    it (cut towards zero where that float is no whole number). *)
Definition to_int64 (x : float) : Z :=
  match Prim2SF x with
  | S754_finite s m e =>
      let v := if 0 <=? e then Zpos m * 2 ^ e else Zpos m / 2 ^ (- e) in
      if s then - v else v
  | _ => 0
  end.

(** The conversion of an [int64] to [float64]: the nearest float. *)
Definition of_int64 (z : Z) : float :=
  SF2Prim (binary_normalize prec emax z 0 false).

(** The product of two cells: an [int64] product when both columns are
    [int64], a [float64] product otherwise. *)
Definition column_product (int64 : bool) (x y : float) : float :=
  if int64 then of_int64 (wrap64 (to_int64 x * to_int64 y))
  else (x * y)%float.

(** The sum of an [int64] column. *)
Definition int64_sum (xs : list float) : Z :=
  wrap64 (fold_left Z.add (map to_int64 xs) 0).

(** ** The data frames *)

(** One row of the uploaded load profile (columns [supply period],
    [datetime], [hour], [wesm], [kWh]); [kWh_int64] says that the [kWh]
    cell was read as an integer. *)
Record LoadRow : Type := mkLoadRow {
  supply_period : string;
  datetime : Timestamp;
  hour : Z;
  wesm : float;
  kWh : float;
  kWh_int64 : bool
}.

(** One row of the solar guarantee table (columns [Hour] and
    [Solar Guarantee (%)]); [guarantee_int64] says that the percentage is
    an integer. *)
Record GuaranteeRow : Type := mkGuaranteeRow {
  Hour : Z;
  Solar_Guarantee : float;
  guarantee_int64 : bool
}.

(** Step 2: the table the data editor starts from, a table of integers. *)
Definition default_solar_guarantee : list GuaranteeRow :=
  map (fun p => mkGuaranteeRow (fst p) (snd p) true)
    (combine
       (map Z.of_nat (seq 1 24))
       [0; 0; 0; 0; 0; 0; 0; 29; 57; 79; 93; 100;
        100; 93; 79; 57; 21; 0; 0; 0; 0; 0; 0; 0]%float).

(** A row of [df] after the merge: the load row and the guarantee cell,
    which is NaN where no [Hour] matched; [int64_product] says that both
    [kWh] and [Solar Guarantee (%)] are [int64] columns of [df]. *)
Record MergedRow : Type := mkMergedRow {
  load : LoadRow;
  guarantee : float;
  int64_product : bool
}.

(** The five columns Step 4 adds. *)
Record Charges : Type := mkCharges {
  Solar_Consumption : float;
  Non_Solar_Consumption : float;
  Solar_Charge : float;
  Non_Solar_Charge : float;
  Total_Charge : float
}.

Record ChargedRow : Type := mkChargedRow {
  merged : MergedRow;
  charges : Charges
}.

(** A row of [df] once Step 5 has added [Supply Period] and
    [Supply Period End]. *)
Record PeriodRow : Type := mkPeriodRow {
  charged : ChargedRow;
  Supply_Period : string;
  Supply_Period_End : Timestamp
}.

(** A row of [detailed_charges_df]: the input columns and the five
    charge columns. *)
Record DetailedRow : Type := mkDetailedRow {
  d_load : LoadRow;
  d_charges : Charges
}.

(** The six summed columns of the pivot table, as floats; [a_kWh_int64]
    is the integer the [kWh] cell holds when that column is [int64]. *)
Record Amounts : Type := mkAmounts {
  a_kWh : float;
  a_Solar_Consumption : float;
  a_Non_Solar_Consumption : float;
  a_Solar_Charge : float;
  a_Non_Solar_Charge : float;
  a_Total_Charge : float;
  a_kWh_int64 : option Z
}.

(** A row of the summary table [pivot_df]. *)
Record SummaryRow : Type := mkSummaryRow {
  Period : string;
  amounts : Amounts;
  Effective_Rate : float
}.

(** ** Validation of the guarantee table *)

Definition out_of_range (edited_df : list GuaranteeRow) : bool :=
  existsb (fun g => (Solar_Guarantee g <? 0)%float) edited_df
  || existsb (fun g => (100 <? Solar_Guarantee g)%float) edited_df.

(** [Series.clip(lower, upper)]: cells below [lower] become [lower], cells
    above [upper] become [upper], NaN cells stay; the column keeps its
    type. *)
Definition clip (lower upper x : float) : float :=
  if (x <? lower)%float then lower
  else if (upper <? x)%float then upper
  else x.

Definition clip_guarantee (edited_df : list GuaranteeRow) : list GuaranteeRow :=
  map (fun g => mkGuaranteeRow (Hour g) (clip 0 100 (Solar_Guarantee g))
                  (guarantee_int64 g)) edited_df.

(** ** The merge *)

(** Whether [kWh] and [Solar Guarantee (%)] are both [int64] columns of
    the merged frame: every cell of the two is an integer and no row is
    left without a guarantee (a NaN makes the column [float64]). *)
Definition merged_int64 (df : list LoadRow) (edited_df : list GuaranteeRow) : bool :=
  forallb kWh_int64 df
  && forallb guarantee_int64 edited_df
  && forallb (fun r => existsb (fun g => Hour g =? hour r) edited_df) df.

(** [df.merge(edited_df, left_on='hour', right_on='Hour', how='left')]:
    every load row is kept, in order; it is paired with each guarantee row
    of the same hour, or with a NaN cell when there is none. *)
Definition merge_row (int64 : bool) (edited_df : list GuaranteeRow)
    (r : LoadRow) : list MergedRow :=
  match filter (fun g => Hour g =? hour r) edited_df with
  | [] => [mkMergedRow r nan int64]
  | matches => map (fun g => mkMergedRow r (Solar_Guarantee g) int64) matches
  end.

Definition merge_left (df : list LoadRow) (edited_df : list GuaranteeRow) : list MergedRow :=
  flat_map (merge_row (merged_int64 df edited_df) edited_df) df.

(** ** Step 4: Calculate Charges *)

Definition calculate_charges (solar_rate line_rental admin_fee : float)
    (r : MergedRow) : ChargedRow :=
  let solar :=
    (column_product (int64_product r) (kWh (load r)) (guarantee r) / 100)%float in
  let non_solar := (kWh (load r) - solar)%float in
  let solar_charge := (solar * (solar_rate + line_rental))%float in
  let non_solar_charge := (non_solar * (wesm (load r) + admin_fee))%float in
  mkChargedRow r
    (mkCharges solar non_solar solar_charge non_solar_charge
       (solar_charge + non_solar_charge)%float).

(** ** Step 5: the supply period columns *)

(** [get_supply_period] applied to the [datetime] column, and the pairs
    unzipped into two new columns: with no row at all there is nothing to
    unpack and Python raises [ValueError]. *)
Definition assign_supply_period (df : list ChargedRow) : result (list PeriodRow) :=
  rows <- mapM (fun r =>
                  p <- get_supply_period (datetime (load (merged r))) ;;
                  Ok (mkPeriodRow r (fst p) (snd p))) df ;;
  match rows with
  | [] => Raise (ValueError "not enough values to unpack (expected 2, got 0)")
  | _ => Ok rows
  end.

(** ** Sorting *)

Section Sorting.
Context {A : Type} (le : A -> A -> bool).

Fixpoint insert (x : A) (l : list A) : list A :=
  match l with
  | [] => [x]
  | y :: l' => if le x y then x :: y :: l' else y :: insert x l'
  end.

(** [sort_values]: ascending.  Rows with equal keys keep their input
    order here; pandas' default sort leaves their order open. *)
Definition sort_values (l : list A) : list A := fold_right insert [] l.
End Sorting.

(** ** Sums *)

(** One step of pandas' [group_sum] on a float column: a NaN cell is
    skipped; otherwise the cell is added with Kahan's compensation, which
    is set back to 0 when it is NaN itself. *)
Definition kahan_step (acc : float * float) (val : float) : float * float :=
  let '(sumx, compensation) := acc in
  if is_nan val then acc
  else
    let y := (val - compensation)%float in
    let t := (sumx + y)%float in
    let c := (t - sumx - y)%float in
    (t, if is_nan c then 0%float else c).

(** The sum of a float column of one group. *)
Definition group_sum (xs : list float) : float :=
  fst (fold_left kahan_step xs (0%float, 0%float)).

(** numpy's pairwise sum of a contiguous float array: fewer than 8 cells
    are added one after the other from 0; up to 128 cells go into 8
    running sums, cell [i] into sum [i mod 8], which are added as a tree,
    and the cells after the last full eight are added to that; a longer
    array is split in two. *)
Fixpoint add_lanes (r chunk : list float) : list float :=
  match r, chunk with
  | a :: r', b :: chunk' => (a + b)%float :: add_lanes r' chunk'
  | _, _ => r
  end.

Fixpoint unrolled (fuel : nat) (r rest : list float) : list float * list float :=
  match fuel with
  | O => (r, rest)
  | S fuel' =>
      if (8 <=? List.length rest)%nat
      then unrolled fuel' (add_lanes r (firstn 8 rest)) (skipn 8 rest)
      else (r, rest)
  end.

Definition add_tree (r : list float) : float :=
  match r with
  | [r0; r1; r2; r3; r4; r5; r6; r7] =>
      (((r0 + r1) + (r2 + r3)) + ((r4 + r5) + (r6 + r7)))%float
  | _ => 0%float
  end.

Definition block_sum (xs : list float) : float :=
  if (List.length xs <? 8)%nat then fold_left PrimFloat.add xs 0%float
  else
    let '(r, rest) := unrolled (List.length xs) (firstn 8 xs) (skipn 8 xs) in
    fold_left PrimFloat.add rest (add_tree r).

Fixpoint pairwise_sum (fuel : nat) (xs : list float) : float :=
  match fuel with
  | O => block_sum xs
  | S fuel' =>
      if (List.length xs <=? 128)%nat then block_sum xs
      else
        let half := (List.length xs / 2)%nat in
        let n2 := (half - half mod 8)%nat in
        (pairwise_sum fuel' (firstn n2 xs) + pairwise_sum fuel' (skipn n2 xs))%float
  end.

(** The sum of a float column of a frame, [DataFrame.sum]: NaN cells
    count as 0 and the pairwise sum is added to the initial 0. *)
Definition frame_sum (xs : list float) : float :=
  let cells := map (fun x => if is_nan x then 0%float else x) xs in
  (0 + pairwise_sum (List.length cells) cells)%float.

(** ** The pivot table *)

(** The six sums of one group: the five charge columns are float
    columns; [kWh] is summed as integers when it is an [int64] column. *)
Definition group_amounts (int64 : bool) (group : list PeriodRow) : Amounts :=
  let kwh := map (fun r => kWh (load (merged (charged r)))) group in
  let column f := group_sum (map (fun r => f (charges (charged r))) group) in
  mkAmounts
    (if int64 then of_int64 (int64_sum kwh) else group_sum kwh)
    (column Solar_Consumption) (column Non_Solar_Consumption)
    (column Solar_Charge) (column Non_Solar_Charge) (column Total_Charge)
    (if int64 then Some (int64_sum kwh) else None).

(** The group keys: the distinct labels, in the order of the text. *)
Definition group_keys (df : list PeriodRow) : list string :=
  sort_values String.leb (nodup string_dec (map Supply_Period df)).

Definition all_nan (a : Amounts) : bool :=
  is_nan (a_kWh a) && is_nan (a_Solar_Consumption a)
  && is_nan (a_Non_Solar_Consumption a) && is_nan (a_Solar_Charge a)
  && is_nan (a_Non_Solar_Charge a) && is_nan (a_Total_Charge a).

(** [df.pivot_table(index=['Supply Period'], values=[...], aggfunc=np.sum)]
    followed by [reset_index]: one row per label with the six sums;
    [pivot_table] drops a row whose sums are all NaN. *)
Definition pivot_table (df : list PeriodRow) : list (string * Amounts) :=
  let int64 := forallb (fun r => kWh_int64 (load (merged (charged r)))) df in
  filter (fun r => negb (all_nan (snd r)))
    (map (fun k =>
            (k, group_amounts int64
                  (filter (fun r => String.eqb (Supply_Period r) k) df)))
       (group_keys df)).

(** Line 100: a quotient of two float columns, NaN or an infinity where
    the energy is zero. *)
Definition effective_rate (a : Amounts) : float :=
  (a_Total_Charge a / a_kWh a)%float.

Definition with_effective_rate (r : string * Amounts) : SummaryRow :=
  mkSummaryRow (fst r) (snd r) (effective_rate (snd r)).

(** [Supply Period Date]: the label parsed back with ['%b-%y'], the sort
    on it, and the drop of the temporary column. *)
Definition sort_by_period_date (pivot_df : list SummaryRow) : result (list SummaryRow) :=
  keyed <- mapM (fun r => d <- strptime_b_y (Period r) ;; Ok (d, r)) pivot_df ;;
  Ok (map snd (sort_values (fun a b => Calendar.leb (fst a) (fst b)) keyed)).

(** ** The grand total *)

Fixpoint all_some (l : list (option Z)) : option (list Z) :=
  match l with
  | [] => Some []
  | Some z :: l' =>
      match all_some l' with
      | Some zs => Some (z :: zs)
      | None => None
      end
  | None :: _ => None
  end.

(** The sum of the [kWh] column of the summary: an integer sum when the
    column is [int64]. *)
Definition frame_kWh_sum (rows : list Amounts) : float * option Z :=
  match all_some (map a_kWh_int64 rows) with
  | Some zs =>
      let z := wrap64 (fold_left Z.add zs 0) in (of_int64 z, Some z)
  | None => (frame_sum (map a_kWh rows), None)
  end.

(** Lines 112 to 114 where they go through: the six column sums, the
    label, and the quotient of the total charge by the energy.  The
    quotient is taken on two Python floats, which raises when the energy
    is zero: [summarize] has that case. *)
Definition grand_total (pivot_df : list SummaryRow) : SummaryRow :=
  let rows := map amounts pivot_df in
  let totals :=
    mkAmounts
      (fst (frame_kWh_sum rows))
      (frame_sum (map a_Solar_Consumption rows))
      (frame_sum (map a_Non_Solar_Consumption rows))
      (frame_sum (map a_Solar_Charge rows))
      (frame_sum (map a_Non_Solar_Charge rows))
      (frame_sum (map a_Total_Charge rows))
      (snd (frame_kWh_sum rows)) in
  mkSummaryRow "Grand Total" totals
    (a_Total_Charge totals / a_kWh totals)%float.

(** The pivot table with its rates, sorted, and the grand total appended;
    [ZeroDivisionError] when the energy of the grand total is zero. *)
Definition summarize (df : list PeriodRow) : result (list SummaryRow) :=
  pivot_df <- sort_by_period_date (map with_effective_rate (pivot_table df)) ;;
  let total := grand_total pivot_df in
  if (a_kWh (amounts total) =? 0)%float then Raise ZeroDivisionError
  else Ok (pivot_df ++ [total]).

(** ** The script *)

Definition detailed_charges (df : list PeriodRow) : list DetailedRow :=
  sort_values (fun a b => Calendar.leb (datetime (d_load a)) (datetime (d_load b)))
    (map (fun r => mkDetailedRow (load (merged (charged r))) (charges (charged r))) df).

(** What the page holds when the script is run once. *)
Record Inputs : Type := mkInputs {
  uploaded_file : option (list LoadRow);
  edited_df : list GuaranteeRow;
  solar_rate : float;
  line_rental : float;
  admin_fee : float;
  calculate_button : bool
}.

Inductive Outcome : Type :=
| NoFile
| Stopped (clipped : list GuaranteeRow)
| Waiting (df : list MergedRow)
| Failed (e : exception)
| Calculated (detailed_charges_df : list DetailedRow) (pivot_df : list SummaryRow).

Definition script (i : Inputs) : Outcome :=
  match uploaded_file i with
  | None => NoFile
  | Some df =>
      if out_of_range (edited_df i) then Stopped (clip_guarantee (edited_df i))
      else
        let df := merge_left df (edited_df i) in
        if calculate_button i then
          let df := map (calculate_charges (solar_rate i) (line_rental i) (admin_fee i)) df in
          match assign_supply_period df with
          | Raise e => Failed e
          | Ok df =>
              match summarize df with
              | Raise e => Failed e
              | Ok pivot_df => Calculated (detailed_charges df) pivot_df
              end
          end
        else Waiting df
  end.

(** ** The chart data *)

(** A row of [hourly_consumption]. *)
Record HourlyRow : Type := mkHourlyRow {
  h_hour : Z;
  h_kWh : float;
  h_Solar_Consumption : float;
  h_Non_Solar_Consumption : float
}.

(** [detailed_charges_df.groupby('hour')[[...]].sum().reset_index()] and
    the column [Non Solar Consumption (kWh)] set to the difference of the
    two sums: one row per hour in ascending order of the hour; a float
    sum skips NaN cells and is 0 when every cell is NaN; [kWh] is summed
    as integers when it is an [int64] column. *)
Definition hourly_consumption (detailed_charges_df : list DetailedRow)
    : list HourlyRow :=
  let int64 := forallb (fun r => kWh_int64 (d_load r)) detailed_charges_df in
  map (fun h =>
         let group :=
           filter (fun r => hour (d_load r) =? h) detailed_charges_df in
         let cells := map (fun r => kWh (d_load r)) group in
         let kwh := if int64 then of_int64 (int64_sum cells) else group_sum cells in
         let solar :=
           group_sum (map (fun r => Solar_Consumption (d_charges r)) group) in
         mkHourlyRow h kwh solar (kwh - solar)%float)
    (sort_values Z.leb
       (nodup Z.eq_dec (map (fun r => hour (d_load r)) detailed_charges_df))).

(** ** The specification's wording of the period rule *)

(** The period end in the words of the specification: day 25 of the
    month after the date's month when the day is 26 or later, day 25 of
    the date's own month otherwise. *)
Definition following_month (y m : Z) : Z * Z :=
  if m =? 12 then (y + 1, 1) else (y, m + 1).

Definition period_end_spec (d : Timestamp) : Timestamp :=
  if 26 <=? day d then
    let '(y, m) := following_month (year d) (month d) in
    mkTimestamp y m 25 (nanos d)
  else mkTimestamp (year d) (month d) 25 (nanos d).


(** The years in which ['%y'] read back gives the year that was written. *)
Definition in_pivot_window (t : Timestamp) : bool :=
  (1969 <=? year t) && (year t <=? 2068).

(** ** Definitions used to state the properties *)

(** Chronological order written out on the fields. *)
Definition lex_lt (a b : Timestamp) : Prop :=
  year a < year b
  \/ (year a = year b
      /\ (month a < month b
          \/ (month a = month b
              /\ (day a < day b \/ (day a = day b /\ nanos a < nanos b))))).

(** The row Step 5 makes of a charged row. *)
Definition period_row (r : ChargedRow) : PeriodRow :=
  let period_end := period_end_spec (datetime (load (merged r))) in
  mkPeriodRow r (strftime_b_y period_end) period_end.

(** The [Supply Period Date] cell of a summary row. *)
Definition supply_period_date (r : SummaryRow) : Timestamp :=
  match strptime_b_y (Period r) with
  | Ok d => d
  | Raise _ => mkTimestamp 0 0 0 0
  end.

(** The per-period rows of the summary, sorted, before the grand total is
    appended. *)
Definition period_rows (df : list PeriodRow) : list SummaryRow :=
  map snd
    (sort_values (fun a b => Calendar.leb (fst a) (fst b))
       (map (fun r => (supply_period_date r, r))
          (map with_effective_rate (pivot_table df)))).

(** The frame [df] of a run after Step 5. *)
Definition period_frame (i : Inputs) (df : list LoadRow) : list PeriodRow :=
  map period_row
    (map (calculate_charges (solar_rate i) (line_rental i) (admin_fee i))
       (merge_left df (edited_df i))).

(** A run that gets as far as the calculation: a file is uploaded, it has
    rows, the guarantee table passes the validation and the button is
    pressed. *)
Definition calculating (i : Inputs) (df : list LoadRow) : Prop :=
  uploaded_file i = Some df /\ df <> []
  /\ out_of_range (edited_df i) = false
  /\ calculate_button i = true
  /\ Forall (fun r => valid (datetime r) = true) df.

(** A label made by [strftime] is read back without error. *)
Definition strftime_made (s : string) : Prop :=
  exists t, 1 <= month t <= 12 /\ s = strftime_b_y t.

(** The dates whose supply period a [Timestamp] can hold: from
    26 September 1677 up to, and without, 26 March 2262. *)
Definition period_in_bounds (d : Timestamp) : bool :=
  Calendar.leb (mkTimestamp 1677 9 26 0) d
  && Calendar.ltb d (mkTimestamp 2262 3 26 0).

(** The five charge columns in the words of the specification, on the
    value [product] of energy times guarantee percent. *)
Definition charges_of_product
    (product energy spotPrice solarRate lineRental adminFee : float)
    : Charges :=
  let solarEnergy := (product / 100)%float in
  let nonSolarEnergy := (energy - solarEnergy)%float in
  let solarCharge := (solarEnergy * (solarRate + lineRental))%float in
  let nonSolarCharge := (nonSolarEnergy * (spotPrice + adminFee))%float in
  let totalCharge := (solarCharge + nonSolarCharge)%float in
  mkCharges solarEnergy nonSolarEnergy solarCharge nonSolarCharge totalCharge.

(** The same with the product taken on two floats. *)
Definition charges_spec
    (energy spotPrice guaranteePercent solarRate lineRental adminFee : float)
    : Charges :=
  charges_of_product (energy * guaranteePercent)%float
    energy spotPrice solarRate lineRental adminFee.

(** The sum of a column over the per-period rows in the words of the
    specification: the cells added one after the other, a missing cell
    counting as 0. *)
Definition column_total (column : Amounts -> float) (rows : list SummaryRow)
    : float :=
  (0 + fold_left PrimFloat.add
         (map (fun r => if is_nan (column (amounts r)) then 0
                        else column (amounts r)) rows) 0)%float.

(** The energy of the grand total of a run on the load profile [df]. *)
Definition total_energy (i : Inputs) (df : list LoadRow) : float :=
  a_kWh (amounts (grand_total (period_rows (period_frame i df)))).

(** Whether the period end of a load row is in the window of ['%y']. *)
Definition period_end_in_window (r : LoadRow) : bool :=
  match get_supply_period (datetime r) with
  | Ok (_, period_end) => in_pivot_window period_end
  | Raise _ => false
  end.

(** *** Sample runs *)

(** The end-to-end scenario: one row per hour of 15 January 2024, 10 kWh
    each at a flat spot price of 5, the default guarantee table, solar
    rate 2, line rental 1, admin fee 0.5. *)
Definition scenario_row (h : Z) : LoadRow :=
  mkLoadRow "Jan-24" (mkTimestamp 2024 1 15 ((h - 1) * 3600000000000)) h 5 10 true.

Definition scenario : Inputs :=
  mkInputs (Some (map scenario_row (map Z.of_nat (seq 1 24))))
    default_solar_guarantee 2 1 0.5 true.

(** A load profile with a row for hour 25, which the guarantee table does
    not have, next to a row for hour 12. *)
Definition unmatched_rows : list LoadRow :=
  [mkLoadRow "Jan-24" (mkTimestamp 2024 1 15 0) 25 5 10 true;
   mkLoadRow "Jan-24" (mkTimestamp 2024 1 16 0) 12 5 10 true].

Definition unmatched_run : Inputs :=
  mkInputs (Some unmatched_rows) default_solar_guarantee 2 1 0.5 true.

(** A load profile over the turn of the year 2068 to 2069. *)
Definition turn_of_2069_rows : list LoadRow :=
  [mkLoadRow "Dec-68" (mkTimestamp 2068 12 10 0) 12 5 10 true;
   mkLoadRow "Jan-69" (mkTimestamp 2069 1 10 0) 12 5 10 true].

Definition turn_of_2069_run : Inputs :=
  mkInputs (Some turn_of_2069_rows) default_solar_guarantee 2 1 0.5 true.

(** A load profile with a period of no consumption before a period with
    consumption. *)
Definition zero_energy_rows : list LoadRow :=
  [mkLoadRow "Jan-24" (mkTimestamp 2024 1 15 0) 12 5 0 true;
   mkLoadRow "Feb-24" (mkTimestamp 2024 2 15 0) 12 5 10 true].

Definition zero_energy_run : Inputs :=
  mkInputs (Some zero_energy_rows) default_solar_guarantee 2 1 0.5 true.

(** A load profile that consumes nothing at all. *)
Definition zero_total_rows : list LoadRow :=
  [mkLoadRow "Jan-24" (mkTimestamp 2024 1 15 0) 12 5 0 true].

Definition zero_total_run : Inputs :=
  mkInputs (Some zero_total_rows) default_solar_guarantee 2 1 0.5 true.

(** A load profile with one row at the end of March 2262. *)
Definition end_of_range_rows : list LoadRow :=
  [mkLoadRow "Apr-62" (mkTimestamp 2262 3 30 0) 12 5 10 true].

Definition end_of_range_run : Inputs :=
  mkInputs (Some end_of_range_rows) default_solar_guarantee 2 1 0.5 true.

(** A guarantee table with one cell above 100 and one below 0. *)
Definition out_of_range_table : list GuaranteeRow :=
  [mkGuaranteeRow 1 (-5) true; mkGuaranteeRow 2 50 true;
   mkGuaranteeRow 3 120 true].

Definition out_of_range_run : Inputs :=
  mkInputs (Some zero_energy_rows) out_of_range_table 2 1 0.5 true.


(** * Properties *)

(** ** The calendar *)

Section CalendarFacts.

Lemma days_in_month_ge_28 (y m : Z) : 28 <= days_in_month y m.
Proof.
  unfold days_in_month.
  destruct (m =? 2); [destruct (is_leap y); lia|].
  destruct ((m =? 4) || (m =? 6) || (m =? 9) || (m =? 11)); lia.
Qed.

Lemma replace_day_inv (t t' : Timestamp) (d : Z) :
  replace_day t d = Ok t' ->
  1 <= d <= days_in_month (year t) (month t)
  /\ t' = mkTimestamp (year t) (month t) d (nanos t)
  /\ in_bounds t' = true.
Proof.
  unfold replace_day.
  destruct ((1 <=? d) && (d <=? days_in_month (year t) (month t))) eqn:D;
    [|discriminate].
  destruct (in_bounds _) eqn:B; [|discriminate].
  intros H. injection H as <-.
  apply andb_true_iff in D. rewrite !Z.leb_le in D. auto.
Qed.

Lemma replace_day_ok (t : Timestamp) (d : Z) :
  1 <= d <= 28 ->
  in_bounds (mkTimestamp (year t) (month t) d (nanos t)) = true ->
  replace_day t d = Ok (mkTimestamp (year t) (month t) d (nanos t)).
Proof.
  intros Hd Hb. unfold replace_day.
  pose proof (days_in_month_ge_28 (year t) (month t)) as H28.
  replace ((1 <=? d) && (d <=? days_in_month (year t) (month t))) with true.
  - rewrite Hb. reflexivity.
  - symmetry. apply andb_true_iff. split; apply Z.leb_le; lia.
Qed.

Lemma replace_day_out_of_bounds (t : Timestamp) (d : Z) :
  1 <= d <= 28 ->
  in_bounds (mkTimestamp (year t) (month t) d (nanos t)) = false ->
  replace_day t d = Raise OutOfBoundsDatetime.
Proof.
  intros Hd Hb. unfold replace_day.
  pose proof (days_in_month_ge_28 (year t) (month t)) as H28.
  replace ((1 <=? d) && (d <=? days_in_month (year t) (month t))) with true.
  - rewrite Hb. reflexivity.
  - symmetry. apply andb_true_iff. split; apply Z.leb_le; lia.
Qed.

(** The day-25 and day-26 anchors exist in every month. *)
Lemma replace_day_no_value_error (t : Timestamp) (d : Z) (msg : string) :
  1 <= d <= 28 -> replace_day t d <> Raise (ValueError msg).
Proof.
  intros Hd. unfold replace_day.
  pose proof (days_in_month_ge_28 (year t) (month t)) as H28.
  replace ((1 <=? d) && (d <=? days_in_month (year t) (month t))) with true.
  - destruct (in_bounds _); discriminate.
  - symmetry. apply andb_true_iff. split; apply Z.leb_le; lia.
Qed.

Lemma valid_fields (t : Timestamp) :
  valid t = true ->
  1 <= month t <= 12 /\ 1 <= day t <= days_in_month (year t) (month t)
  /\ 0 <= nanos t < ns_per_day.
Proof.
  unfold valid. rewrite !andb_true_iff, !Z.leb_le, Z.ltb_lt. lia.
Qed.

Lemma add_months_next (t : Timestamp) :
  1 <= month t <= 12 ->
  year (add_months t 1) = (if month t =? 12 then year t + 1 else year t)
  /\ month (add_months t 1) = (if month t =? 12 then 1 else month t + 1).
Proof.
  intros Hm. unfold add_months. cbn [year month].
  destruct (Z.eqb_spec (month t) 12) as [E|E].
  - rewrite E. split; reflexivity.
  - replace (month t - 1 + 1) with (month t) by lia.
    rewrite Z.div_small, Z.mod_small by lia. split; lia.
Qed.

Lemma add_months_prev (t : Timestamp) :
  1 <= month t <= 12 ->
  year (add_months t (-1)) = (if month t =? 1 then year t - 1 else year t)
  /\ month (add_months t (-1)) = (if month t =? 1 then 12 else month t - 1).
Proof.
  intros Hm. unfold add_months. cbn [year month].
  destruct (Z.eqb_spec (month t) 1) as [E|E].
  - rewrite E. split; reflexivity.
  - rewrite Z.div_small, Z.mod_small by lia. split; lia.
Qed.

End CalendarFacts.

(** *** The chronological order *)

Section Chronology.

Lemma ltb_lex (a b : Timestamp) : Calendar.ltb a b = true <-> lex_lt a b.
Proof.
  unfold Calendar.ltb, Calendar.compare, lex_lt.
  destruct (Z.compare_spec (year a) (year b));
    destruct (Z.compare_spec (month a) (month b));
    destruct (Z.compare_spec (day a) (day b));
    destruct (Z.compare_spec (nanos a) (nanos b));
    split; intros; try discriminate; try reflexivity; lia.
Qed.

Lemma leb_lex (a b : Timestamp) : Calendar.leb a b = true <-> ~ lex_lt b a.
Proof.
  unfold Calendar.leb, Calendar.compare, lex_lt.
  destruct (Z.compare_spec (year a) (year b));
    destruct (Z.compare_spec (month a) (month b));
    destruct (Z.compare_spec (day a) (day b));
    destruct (Z.compare_spec (nanos a) (nanos b));
    split; intros; try discriminate; try reflexivity; lia.
Qed.

Lemma leb_total (a b : Timestamp) :
  Calendar.leb a b = false -> Calendar.leb b a = true.
Proof.
  intros H. apply leb_lex. intros Hl.
  assert (Calendar.leb a b <> true) as Hn by (rewrite H; discriminate).
  apply Hn. apply leb_lex. unfold lex_lt in *. lia.
Qed.

Lemma leb_trans (a b c : Timestamp) :
  Calendar.leb a b = true -> Calendar.leb b c = true -> Calendar.leb a c = true.
Proof.
  rewrite !leb_lex. unfold lex_lt. lia.
Qed.

(** The range of a [Timestamp], on the fields. *)
Lemma in_bounds_lex (t : Timestamp) :
  in_bounds t = true
  <-> ~ lex_lt t min_timestamp /\ ~ lex_lt max_timestamp t.
Proof.
  unfold in_bounds. rewrite andb_true_iff, !leb_lex. reflexivity.
Qed.

Lemma period_in_bounds_lex (d : Timestamp) :
  period_in_bounds d = true
  <-> ~ lex_lt d (mkTimestamp 1677 9 26 0)
      /\ lex_lt d (mkTimestamp 2262 3 26 0).
Proof.
  unfold period_in_bounds. rewrite andb_true_iff, leb_lex, ltb_lex.
  reflexivity.
Qed.

End Chronology.


Section SupplyPeriod.

Ltac bounds :=
  unfold lex_lt, min_timestamp, max_timestamp, ns_per_day in *;
  cbn [year month day nanos] in *; lia.

(** What [get_supply_period] returns, when it returns. *)
Lemma get_supply_period_inv (d : Timestamp) (label : string)
    (period_end : Timestamp) :
  valid d = true ->
  get_supply_period d = Ok (label, period_end) ->
  label = strftime_b_y (period_end_spec d) /\ period_end = period_end_spec d.
Proof.
  intros Hv. apply valid_fields in Hv. destruct Hv as (Hm & Hd & Hn).
  unfold get_supply_period, period_end_spec, following_month.
  destruct (26 <=? day d).
  - destruct (replace_day d 26) as [s | e] eqn:R1; cbn [bind]; [|discriminate].
    apply replace_day_inv in R1. destruct R1 as (_ & -> & _).
    unfold date_offset. destruct (in_bounds _); cbn [bind]; [|discriminate].
    destruct (replace_day _ 25) as [pe | e] eqn:R2; cbn [bind]; [|discriminate].
    apply replace_day_inv in R2. destruct R2 as (_ & -> & _).
    set (s := mkTimestamp (year d) (month d) 26 (nanos d)).
    destruct (add_months_next s Hm) as [Ey Em]. rewrite Ey, Em.
    subst s. cbn [year month nanos add_months].
    intros H. injection H as <- <-.
    destruct (month d =? 12); split; reflexivity.
  - destruct (replace_day d 25) as [pe | e] eqn:R1; cbn [bind]; [|discriminate].
    apply replace_day_inv in R1. destruct R1 as (_ & -> & _).
    unfold date_offset. destruct (in_bounds _); cbn [bind]; [|discriminate].
    destruct (replace_day _ 26) as [s | e] eqn:R2; cbn [bind]; [|discriminate].
    intros H. injection H as <- <-. split; reflexivity.
Qed.

(** [get_supply_period] returns for the dates whose period a
    [Timestamp] can hold. *)
Lemma get_supply_period_eq (d : Timestamp) :
  valid d = true -> period_in_bounds d = true ->
  get_supply_period d = Ok (strftime_b_y (period_end_spec d), period_end_spec d).
Proof.
  intros Hv Hb. apply valid_fields in Hv. destruct Hv as (Hm & Hd & Hn).
  apply period_in_bounds_lex in Hb.
  pose proof (days_in_month_ge_28 (year d) (month d)) as H28.
  unfold get_supply_period, period_end_spec, following_month.
  destruct (Z.leb_spec 26 (day d)) as [H26 | H26].
  - rewrite replace_day_ok by (try lia; apply in_bounds_lex; bounds).
    cbn [bind]. unfold date_offset.
    set (s := mkTimestamp (year d) (month d) 26 (nanos d)).
    destruct (add_months_next s Hm) as [Ey Em].
    assert (day (add_months s 1) = 26) as Ed.
    { unfold add_months. cbn [day year month s].
      match goal with |- Z.min _ (days_in_month ?y ?m) = _ =>
        pose proof (days_in_month_ge_28 y m) end. lia. }
    assert (nanos (add_months s 1) = nanos d) as En by reflexivity.
    assert (in_bounds (add_months s 1) = true) as B1.
    { apply in_bounds_lex. unfold lex_lt. rewrite Ey, Em, Ed, En.
      subst s. cbn [year month day nanos] in *.
      destruct (Z.eqb_spec (month d) 12); bounds. }
    rewrite B1. cbn [bind].
    rewrite replace_day_ok.
    + rewrite Ey, Em, En. subst s. cbn [year month].
      destruct (month d =? 12); reflexivity.
    + lia.
    + apply in_bounds_lex. unfold lex_lt. cbn [year month day nanos].
      rewrite Ey, Em, En. subst s. cbn [year month day nanos] in *.
      destruct (Z.eqb_spec (month d) 12); bounds.
  - rewrite replace_day_ok by (try lia; apply in_bounds_lex; bounds).
    cbn [bind]. unfold date_offset.
    set (p := mkTimestamp (year d) (month d) 25 (nanos d)).
    destruct (add_months_prev p Hm) as [Ey Em].
    assert (day (add_months p (-1)) = 25) as Ed.
    { unfold add_months. cbn [day year month p].
      match goal with |- Z.min _ (days_in_month ?y ?m) = _ =>
        pose proof (days_in_month_ge_28 y m) end. lia. }
    assert (nanos (add_months p (-1)) = nanos d) as En by reflexivity.
    assert (in_bounds (add_months p (-1)) = true) as B1.
    { apply in_bounds_lex. unfold lex_lt. rewrite Ey, Em, Ed, En.
      subst p. cbn [year month day nanos] in *.
      destruct (Z.eqb_spec (month d) 1); bounds. }
    rewrite B1. cbn [bind].
    rewrite replace_day_ok.
    + reflexivity.
    + lia.
    + apply in_bounds_lex. unfold lex_lt. cbn [year month day nanos].
      rewrite Ey, Em, En. subst p. cbn [year month day nanos] in *.
      destruct (Z.eqb_spec (month d) 1); bounds.
Qed.

(** For every other date it raises [OutOfBoundsDatetime]. *)
Lemma get_supply_period_raise (d : Timestamp) :
  valid d = true -> period_in_bounds d = false ->
  get_supply_period d = Raise OutOfBoundsDatetime.
Proof.
  intros Hv Hb.
  destruct (get_supply_period d) as [[l pe] | e] eqn:G.
  - exfalso.
    assert (period_in_bounds d = true) as Hb'; [|congruence].
    clear Hb. apply valid_fields in Hv. destruct Hv as (Hm & Hd & Hn).
    apply period_in_bounds_lex. revert G. unfold get_supply_period.
    destruct (Z.leb_spec 26 (day d)) as [H26 | H26].
    + destruct (replace_day d 26) as [s | e] eqn:R1; cbn [bind]; [|discriminate].
      apply replace_day_inv in R1. destruct R1 as (_ & -> & B0).
      unfold date_offset.
      set (s := mkTimestamp (year d) (month d) 26 (nanos d)) in *.
      destruct (in_bounds (add_months s 1)) eqn:B1; cbn [bind]; [|discriminate].
      intros _. apply in_bounds_lex in B0, B1.
      destruct (add_months_next s Hm) as [Ey Em].
      assert (day (add_months s 1) = 26) as Ed.
      { unfold add_months. cbn [day year month s].
        match goal with |- Z.min _ (days_in_month ?y ?m) = _ =>
          pose proof (days_in_month_ge_28 y m) end. lia. }
      unfold lex_lt in B1. rewrite Ey, Em, Ed in B1. subst s. cbn [year month day nanos] in *.
      destruct (Z.eqb_spec (month d) 12); bounds.
    + destruct (replace_day d 25) as [p | e] eqn:R1; cbn [bind]; [|discriminate].
      apply replace_day_inv in R1. destruct R1 as (_ & -> & B0).
      unfold date_offset.
      set (p := mkTimestamp (year d) (month d) 25 (nanos d)) in *.
      destruct (in_bounds (add_months p (-1))) eqn:B1; cbn [bind]; [|discriminate].
      intros _. apply in_bounds_lex in B0, B1.
      destruct (add_months_prev p Hm) as [Ey Em].
      assert (day (add_months p (-1)) = 25) as Ed.
      { unfold add_months. cbn [day year month p].
        match goal with |- Z.min _ (days_in_month ?y ?m) = _ =>
          pose proof (days_in_month_ge_28 y m) end. lia. }
      unfold lex_lt in B1. rewrite Ey, Em, Ed in B1. subst p. cbn [year month day nanos] in *.
      destruct (Z.eqb_spec (month d) 1); bounds.
  - f_equal. revert G. unfold get_supply_period, date_offset.
    destruct (26 <=? day d).
    + destruct (replace_day d 26) as [s | e1] eqn:R1; cbn [bind].
      * destruct (in_bounds _); cbn [bind]; [|congruence].
        destruct (replace_day _ 25) as [pe | e2] eqn:R2; cbn [bind]; [discriminate|].
        destruct e2 as [msg| |]; [|congruence|].
        -- exfalso. revert R2. apply replace_day_no_value_error. lia.
        -- revert R2. unfold replace_day.
           destruct (_ && _); [destruct (in_bounds _)|]; discriminate.
      * destruct e1 as [msg| |]; [|congruence|].
        -- exfalso. revert R1. apply replace_day_no_value_error. lia.
        -- revert R1. unfold replace_day.
           destruct (_ && _); [destruct (in_bounds _)|]; discriminate.
    + destruct (replace_day d 25) as [s | e1] eqn:R1; cbn [bind].
      * destruct (in_bounds _); cbn [bind]; [|congruence].
        destruct (replace_day _ 26) as [pe | e2] eqn:R2; cbn [bind]; [discriminate|].
        destruct e2 as [msg| |]; [|congruence|].
        -- exfalso. revert R2. apply replace_day_no_value_error. lia.
        -- revert R2. unfold replace_day.
           destruct (_ && _); [destruct (in_bounds _)|]; discriminate.
      * destruct e1 as [msg| |]; [|congruence|].
        -- exfalso. revert R1. apply replace_day_no_value_error. lia.
        -- revert R1. unfold replace_day.
           destruct (_ && _); [destruct (in_bounds _)|]; discriminate.
Qed.

Lemma get_supply_period_in_bounds (d : Timestamp) (p : string * Timestamp) :
  valid d = true -> get_supply_period d = Ok p -> period_in_bounds d = true.
Proof.
  intros Hv Hp. destruct (period_in_bounds d) eqn:B; [reflexivity|].
  rewrite get_supply_period_raise in Hp by assumption. discriminate.
Qed.

Lemma period_end_spec_valid (d : Timestamp) :
  valid d = true -> valid (period_end_spec d) = true.
Proof.
  intros Hv. apply valid_fields in Hv. destruct Hv as (Hm & Hd & Hn).
  unfold period_end_spec, following_month.
  destruct (26 <=? day d); [destruct (Z.eqb_spec (month d) 12)|];
    unfold valid; cbn [year month day nanos];
    match goal with |- context [days_in_month ?y ?m] =>
      pose proof (days_in_month_ge_28 y m) end;
    rewrite !andb_true_iff, !Z.leb_le, Z.ltb_lt; lia.
Qed.

Lemma period_end_spec_day (d : Timestamp) : day (period_end_spec d) = 25.
Proof.
  unfold period_end_spec, following_month.
  destruct (26 <=? day d); [destruct (month d =? 12)|]; reflexivity.
Qed.

End SupplyPeriod.

(** ** Labels *)

Section Labels.

Lemma digit_value_digit (d : Z) : 0 <= d <= 9 -> digit_value (digit d) = Some d.
Proof.
  intros Hd.
  assert (d = 0 \/ d = 1 \/ d = 2 \/ d = 3 \/ d = 4 \/ d = 5 \/ d = 6 \/ d = 7
          \/ d = 8 \/ d = 9) as Hc by lia.
  repeat (destruct Hc as [-> | Hc]; [reflexivity|]). subst d. reflexivity.
Qed.

Lemma two_digit_split (n : Z) :
  0 <= n < 100 -> 0 <= n / 10 <= 9 /\ 0 <= n mod 10 <= 9 /\ 10 * (n / 10) + n mod 10 = n.
Proof. intros Hn. Z.div_mod_to_equations. lia. Qed.

Lemma strptime_parts (name : string) (m a b : Z) :
  String.length name = 3%nat ->
  month_of_abbr name month_abbr 1 = Some m ->
  0 <= a <= 9 -> 0 <= b <= 9 ->
  strptime_b_y (name ++ "-" ++ String (digit a) (String (digit b) EmptyString))
  = Ok (mkTimestamp (pivot_year (10 * a + b)) m 1 0).
Proof.
  intros Hlen Hname Ha Hb.
  destruct name as [|c1 [|c2 [|c3 [|c4 rest]]]]; try discriminate Hlen.
  cbn [append]. unfold strptime_b_y.
  rewrite Hname, !digit_value_digit by assumption. reflexivity.
Qed.

(** Reading a label back: the month is recovered, the year only up to its
    century. *)
Lemma strptime_strftime (t : Timestamp) :
  1 <= month t <= 12 ->
  strptime_b_y (strftime_b_y t)
  = Ok (mkTimestamp (pivot_year (year t mod 100)) (month t) 1 0).
Proof.
  intros Hm. unfold strftime_b_y, two_digits.
  assert (0 <= year t mod 100 < 100) as Hy by (apply Z.mod_pos_bound; lia).
  destruct (two_digit_split _ Hy) as (H1 & H2 & H3).
  rewrite <- H3 at 3.
  assert (month t = 1 \/ month t = 2 \/ month t = 3 \/ month t = 4
          \/ month t = 5 \/ month t = 6 \/ month t = 7 \/ month t = 8
          \/ month t = 9 \/ month t = 10 \/ month t = 11 \/ month t = 12)
    as Hc by lia.
  repeat (destruct Hc as [E | Hc];
          [rewrite E; apply strptime_parts; [reflexivity|reflexivity|assumption|assumption]|]).
  rewrite Hc; apply strptime_parts; [reflexivity|reflexivity|assumption|assumption].
Qed.

Lemma pivot_year_window (y : Z) :
  1969 <= y <= 2068 -> pivot_year (y mod 100) = y.
Proof.
  intros Hy. unfold pivot_year.
  destruct (Z.leb_spec (y mod 100) 68); Z.div_mod_to_equations; lia.
Qed.

Lemma pivot_year_inj (a b : Z) :
  0 <= a < 100 -> 0 <= b < 100 -> pivot_year a = pivot_year b -> a = b.
Proof.
  unfold pivot_year. intros Ha Hb.
  destruct (Z.leb_spec a 68), (Z.leb_spec b 68); lia.
Qed.

Lemma same_century (a b : Z) :
  a mod 100 = b mod 100 -> Z.abs (a - b) < 100 -> a = b.
Proof. intros Hm Hd. Z.div_mod_to_equations. lia. Qed.

(** Two labels are the same text only for the same month and the same
    year within its century. *)
Lemma strftime_inj (a b : Timestamp) :
  1 <= month a <= 12 -> 1 <= month b <= 12 ->
  strftime_b_y a = strftime_b_y b ->
  month a = month b /\ year a mod 100 = year b mod 100.
Proof.
  intros Ha Hb E.
  pose proof (strptime_strftime a Ha) as Pa.
  pose proof (strptime_strftime b Hb) as Pb.
  rewrite E, Pb in Pa. injection Pa as Ey Em.
  split; [lia|].
  symmetry. apply pivot_year_inj; try (apply Z.mod_pos_bound; lia). assumption.
Qed.

End Labels.

(** ** The claims on the period resolver *)

(** Claim C3.  Whenever [get_supply_period] resolves a calendar date, the
    period ends where the specification says (day 25 of the following
    month when the day is 26 or later, day 25 of the date's own month
    otherwise) and the label is the ['%b-%y'] text of that end; it
    resolves every date whose period a [Timestamp] can hold;
    25 January 2024 resolves to the period ending Jan-24 and
    26 January 2024 to the one ending Feb-24. *)
Theorem supply_period_rule :
  (forall (d : Timestamp) (label : string) (period_end : Timestamp),
     valid d = true ->
     get_supply_period d = Ok (label, period_end) ->
     period_end = period_end_spec d /\ label = strftime_b_y period_end)
  /\ (forall d : Timestamp,
        valid d = true -> period_in_bounds d = true ->
        get_supply_period d
        = Ok (strftime_b_y (period_end_spec d), period_end_spec d))
  /\ get_supply_period (mkTimestamp 2024 1 25 0)
     = Ok ("Jan-24"%string, mkTimestamp 2024 1 25 0)
  /\ get_supply_period (mkTimestamp 2024 1 26 0)
     = Ok ("Feb-24"%string, mkTimestamp 2024 2 25 0).
Proof.
  split; [|split; [exact get_supply_period_eq | split; reflexivity]].
  intros d label period_end Hv H.
  destruct (get_supply_period_inv d label period_end Hv H) as [-> ->].
  split; reflexivity.
Qed.

Lemma supply_period_rule_witness :
  valid (mkTimestamp 2023 12 31 0) = true
  /\ period_in_bounds (mkTimestamp 2023 12 31 0) = true
  /\ get_supply_period (mkTimestamp 2023 12 31 0)
     = Ok ("Jan-24"%string, mkTimestamp 2024 1 25 0).
Proof.
  split; [reflexivity|]. split; [reflexivity|].
  exact (proj1 (proj2 supply_period_rule) (mkTimestamp 2023 12 31 0)
           eq_refl eq_refl).
Defined.




(** Claim C10, as the code has it.  The period end of every date is a
    25th and the label is its ['%b-%y'] text; two period ends less than a
    century apart with the same label are the same day; and for period
    ends in the years 1969 to 2068, the years a two-digit year is read
    back to, the parsed labels compare as the period ends do. *)
Theorem period_label_invariant
    (d1 d2 : Timestamp) (l1 l2 : string) (pe1 pe2 : Timestamp)
    (Hv1 : valid d1 = true) (Hv2 : valid d2 = true)
    (H1 : get_supply_period d1 = Ok (l1, pe1))
    (H2 : get_supply_period d2 = Ok (l2, pe2)) :
  (day pe1 = 25 /\ l1 = strftime_b_y pe1)
  /\ (l1 = l2 -> Z.abs (year pe1 - year pe2) < 100 ->
      normalize pe1 = normalize pe2)
  /\ (in_pivot_window pe1 = true -> in_pivot_window pe2 = true ->
      exists k1 k2,
        strptime_b_y l1 = Ok k1 /\ strptime_b_y l2 = Ok k2
        /\ Calendar.compare k1 k2
           = Calendar.compare (normalize pe1) (normalize pe2)).
Proof.
  apply get_supply_period_inv in H1, H2; try assumption.
  destruct H1 as [-> ->], H2 as [-> ->].
  pose proof (period_end_spec_valid d1 Hv1) as V1.
  pose proof (period_end_spec_valid d2 Hv2) as V2.
  apply valid_fields in V1, V2.
  destruct V1 as (M1 & _ & _), V2 as (M2 & _ & _).
  pose proof (period_end_spec_day d1) as D1.
  pose proof (period_end_spec_day d2) as D2.
  set (p1 := period_end_spec d1) in *. set (p2 := period_end_spec d2) in *.
  split; [split; [assumption|reflexivity]|]. split.
  - intros El Hc. destruct (strftime_inj p1 p2 M1 M2 El) as [Em Ey].
    pose proof (same_century _ _ Ey Hc) as Eyy.
    unfold normalize. rewrite Em, Eyy, D1, D2. reflexivity.
  - intros W1 W2. unfold in_pivot_window in W1, W2.
    rewrite andb_true_iff, !Z.leb_le in W1, W2.
    eexists. eexists.
    split; [apply strptime_strftime; assumption|].
    split; [apply strptime_strftime; assumption|].
    rewrite !pivot_year_window by lia.
    unfold Calendar.compare, normalize. cbn [year month day nanos].
    rewrite D1, D2. reflexivity.
Qed.

Lemma period_label_invariant_witness :
  exists k1 k2,
    strptime_b_y "Dec-23" = Ok k1 /\ strptime_b_y "Jan-24" = Ok k2
    /\ Calendar.compare k1 k2
       = Calendar.compare (normalize (mkTimestamp 2023 12 25 7))
           (normalize (mkTimestamp 2024 1 25 0)).
Proof.
  exact (proj2 (proj2
    (period_label_invariant
       (mkTimestamp 2023 12 3 7) (mkTimestamp 2023 12 26 0)
       "Dec-23" "Jan-24" (mkTimestamp 2023 12 25 7) (mkTimestamp 2024 1 25 0)
       eq_refl eq_refl eq_refl eq_refl)) eq_refl eq_refl).
Defined.

(** The claim as stated fails: the period ends of 26 November 2068 and of
    26 December 2068 are a month apart and have different labels, yet the
    parsed labels compare the other way round than the period ends. *)
Lemma label_order_counterexample :
  get_supply_period (mkTimestamp 2068 11 26 0)
  = Ok ("Dec-68"%string, mkTimestamp 2068 12 25 0)
  /\ get_supply_period (mkTimestamp 2068 12 26 0)
     = Ok ("Jan-69"%string, mkTimestamp 2069 1 25 0)
  /\ Z.abs (2068 - 2069) < 100
  /\ strptime_b_y "Dec-68" = Ok (mkTimestamp 2068 12 1 0)
  /\ strptime_b_y "Jan-69" = Ok (mkTimestamp 1969 1 1 0)
  /\ Calendar.compare (mkTimestamp 2068 12 1 0) (mkTimestamp 1969 1 1 0) = Gt
  /\ Calendar.compare (normalize (mkTimestamp 2068 12 25 0))
       (normalize (mkTimestamp 2069 1 25 0)) = Lt.
Proof. repeat split. Qed.

(** ** Binary64 facts the pipeline relies on *)

Section FloatFacts.

Local Open Scope float_scope.

Lemma Prim2SF_nan : Prim2SF nan = S754_nan.
Proof. reflexivity. Qed.

Lemma nan_of_Prim2SF (x : float) : Prim2SF x = S754_nan -> x = nan.
Proof. intros H. apply Prim2SF_inj. rewrite H. reflexivity. Qed.

Lemma mul_nan_r (x : float) : x * nan = nan.
Proof.
  apply nan_of_Prim2SF. rewrite mul_spec, Prim2SF_nan.
  destruct (Prim2SF x); reflexivity.
Qed.

Lemma mul_nan_l (x : float) : nan * x = nan.
Proof. apply nan_of_Prim2SF. rewrite mul_spec, Prim2SF_nan. reflexivity. Qed.

Lemma div_nan_l (x : float) : nan / x = nan.
Proof. apply nan_of_Prim2SF. rewrite div_spec, Prim2SF_nan. reflexivity. Qed.

Lemma sub_nan_r (x : float) : x - nan = nan.
Proof.
  apply nan_of_Prim2SF. rewrite sub_spec, Prim2SF_nan.
  destruct (Prim2SF x); reflexivity.
Qed.

Lemma add_nan_l (x : float) : nan + x = nan.
Proof. apply nan_of_Prim2SF. rewrite add_spec, Prim2SF_nan. reflexivity. Qed.

Lemma is_nan_nan : is_nan nan = true.
Proof. reflexivity. Qed.

(** A quotient by either zero is an infinity or NaN. *)
Lemma div_zero_not_finite (t k : float) :
  (k =? 0) = true -> is_finite (t / k) = false.
Proof.
  intros H. unfold is_finite, is_nan, is_infinity.
  rewrite eqb_spec in H.
  rewrite !eqb_spec, abs_spec, div_spec.
  change (Prim2SF 0) with (S754_zero false) in H.
  change (Prim2SF infinity) with (S754_infinity false).
  destruct (Prim2SF k) as [s | s | | s m e].
  - destruct (Prim2SF t) as [s' | s' | | s' m' e'];
      try reflexivity; destruct s, s'; reflexivity.
  - destruct s; discriminate H.
  - discriminate H.
  - destruct s; discriminate H.
Qed.

Lemma div_zero_cases (t k : float) :
  (k =? 0) = true -> t / k = nan \/ t / k = infinity \/ t / k = neg_infinity.
Proof.
  intros H. rewrite eqb_spec in H.
  change (Prim2SF 0) with (S754_zero false) in H.
  assert (Prim2SF (t / k) = S754_nan
          \/ Prim2SF (t / k) = S754_infinity false
          \/ Prim2SF (t / k) = S754_infinity true) as Hc.
  { rewrite div_spec.
    destruct (Prim2SF k) as [s | s | | s m e];
      [| destruct s; discriminate H | discriminate H | destruct s; discriminate H].
    destruct (Prim2SF t) as [s' | s' | | s' m' e']; cbn; auto;
      destruct s, s'; cbn; auto. }
  destruct Hc as [Hc | [Hc | Hc]]; [left | right; left | right; right];
    apply Prim2SF_inj; rewrite Hc; reflexivity.
Qed.

Lemma SFcompare_antisym (a b : spec_float) :
  SFcompare b a = option_map CompOpp (SFcompare a b).
Proof.
  destruct a as [sa | sa | | sa ma ea], b as [sb | sb | | sb mb eb];
    cbn [SFcompare option_map]; try reflexivity;
    try (destruct sa; reflexivity); try (destruct sb; reflexivity);
    try (destruct sa, sb; reflexivity).
  destruct sa, sb; cbn [CompOpp]; try reflexivity;
    rewrite (Z.compare_antisym ea eb);
    destruct (ea ?= eb)%Z; cbn [CompOpp]; try reflexivity.
  - pose proof (Pos.compare_cont_antisym ma mb Eq) as P. cbn [CompOpp] in P.
    rewrite <- P. reflexivity.
  - pose proof (Pos.compare_cont_antisym ma mb Eq) as P. cbn [CompOpp] in P.
    rewrite <- P. destruct (Pos.compare_cont Eq ma mb); reflexivity.
Qed.

(** When [y <= x] holds, [x < y] does not. *)
Lemma ltb_false_of_leb (x y : float) : (y <=? x) = true -> (x <? y) = false.
Proof.
  rewrite ltb_spec, leb_spec. unfold SFltb, SFleb.
  rewrite (SFcompare_antisym (Prim2SF y) (Prim2SF x)).
  destruct (SFcompare (Prim2SF y) (Prim2SF x)) as [[| |]|];
    cbn [option_map CompOpp]; intros H; try discriminate H; reflexivity.
Qed.

(** The two range tests of the validation exclude each other, and a cell
    inside the range passes neither. *)
Lemma above_100_not_below_0 (x : float) :
  (100 <? x) = true -> (x <? 0) = false.
Proof.
  rewrite !ltb_spec. unfold SFltb.
  change (Prim2SF 0) with (S754_zero false).
  assert (exists m e, Prim2SF 100 = S754_finite false m e) as (m & e & ->)
    by (eexists; eexists; vm_compute; reflexivity).
  destruct (Prim2SF x) as [s | s | | s mx ex]; cbn [SFcompare];
    try reflexivity; destruct s; try reflexivity; discriminate.
Qed.

Lemma in_range_not_clipped (x : float) :
  (0 <=? x) = true -> (x <=? 100) = true ->
  (x <? 0) = false /\ (100 <? x) = false.
Proof.
  intros H0 H100. split; apply ltb_false_of_leb; assumption.
Qed.

Lemma finite_cases (e : float) :
  is_finite e = true ->
  (exists s, Prim2SF e = S754_zero s) \/ (exists s m x, Prim2SF e = S754_finite s m x).
Proof.
  unfold is_finite, is_nan, is_infinity. rewrite !eqb_spec, abs_spec.
  change (Prim2SF infinity) with (S754_infinity false).
  destruct (Prim2SF e) as [s | s | | s m x]; intros H.
  - left. exists s. reflexivity.
  - destruct s; discriminate H.
  - discriminate H.
  - right. exists s, m, x. reflexivity.
Qed.

Lemma SFeqb_refl_finite (s : bool) (m : positive) (x : Z) :
  SFeqb (S754_finite s m x) (S754_finite s m x) = true.
Proof.
  unfold SFeqb. cbn [SFcompare].
  rewrite Z.compare_refl, Pos.compare_cont_refl. destruct s; reflexivity.
Qed.

(** With a guarantee of zero nothing is rounded away: the solar energy
    is zero and the two energies add up to the energy. *)
Lemma zero_guarantee_exact (e g : float) :
  is_finite e = true -> (g =? 0) = true ->
  (e * g / 100 =? 0) = true
  /\ (e * g / 100 + (e - e * g / 100) =? e) = true.
Proof.
  intros He Hg. rewrite eqb_spec in Hg.
  change (Prim2SF 0) with (S754_zero false) in Hg.
  rewrite !eqb_spec, add_spec, sub_spec, !div_spec, !mul_spec.
  change (Prim2SF 0) with (S754_zero false).
  assert (exists m x, Prim2SF 100 = S754_finite false m x) as (mh & xh & ->)
    by (eexists; eexists; vm_compute; reflexivity).
  destruct (Prim2SF g) as [sg | sg | | sg mg xg];
    [| destruct sg; discriminate Hg | discriminate Hg
     | destruct sg; discriminate Hg].
  destruct (finite_cases e He) as [(s & ->) | (s & m & x & ->)].
  - split; destruct s, sg; reflexivity.
  - split; [destruct s, sg; reflexivity|].
    unfold SF64add, SF64sub, SF64div, SF64mul.
    destruct s, sg; cbn [SFadd SFsub SFdiv SFmul xorb]; apply SFeqb_refl_finite.
Qed.
Lemma SFcompare_refl (a : spec_float) :
  a <> S754_nan -> SFcompare a a = Some Eq.
Proof.
  destruct a as [s | s | | s m x]; intros H; try congruence.
  - reflexivity.
  - destruct s; reflexivity.
  - cbn [SFcompare]. rewrite Z.compare_refl, Pos.compare_cont_refl.
    destruct s; reflexivity.
Qed.

Lemma SFcompare_None (a b : spec_float) :
  SFcompare a b = None -> a = S754_nan \/ b = S754_nan.
Proof.
  destruct a as [sa | sa | | sa ma xa], b as [sb | sb | | sb mb xb];
    cbn [SFcompare]; intros H; auto; discriminate H.
Qed.

Lemma is_nan_Prim2SF (x : float) :
  is_nan x = true <-> Prim2SF x = S754_nan.
Proof.
  unfold is_nan. rewrite eqb_spec. unfold SFeqb. split.
  - intros H. destruct (Prim2SF x) as [s | s | | s m e] eqn:E; try reflexivity;
      rewrite SFcompare_refl in H by discriminate; discriminate H.
  - intros ->. reflexivity.
Qed.

Lemma not_ltb_leb (x y : float) :
  (x <? y) = false -> is_nan x = false -> is_nan y = false ->
  (y <=? x) = true.
Proof.
  rewrite ltb_spec, leb_spec. unfold SFltb, SFleb. intros H Hx Hy.
  rewrite (SFcompare_antisym (Prim2SF x) (Prim2SF y)).
  destruct (SFcompare (Prim2SF x) (Prim2SF y)) as [[| |]|] eqn:C;
    cbn [option_map CompOpp]; try reflexivity; try discriminate H.
  apply SFcompare_None in C. destruct C as [C | C];
    apply is_nan_Prim2SF in C; congruence.
Qed.

Lemma ltb_nan_l (y : float) : (nan <? y) = false.
Proof. rewrite ltb_spec. reflexivity. Qed.

Lemma ltb_nan_r (x : float) : (x <? nan) = false.
Proof.
  rewrite ltb_spec. change (Prim2SF nan) with S754_nan. unfold SFltb.
  destruct (Prim2SF x); reflexivity.
Qed.

Lemma eqb_zero_Prim2SF (x : float) :
  (x =? 0) = true <-> exists s, Prim2SF x = S754_zero s.
Proof.
  rewrite eqb_spec. change (Prim2SF 0) with (S754_zero false). split.
  - destruct (Prim2SF x) as [s | s | | s m e]; intros H.
    + exists s. reflexivity.
    + destruct s; discriminate H.
    + discriminate H.
    + destruct s; discriminate H.
  - intros (s & ->). reflexivity.
Qed.

Lemma sub_zero_r (x : float) : x - 0 = x.
Proof.
  apply Prim2SF_inj. rewrite sub_spec.
  change (Prim2SF 0) with (S754_zero false).
  destruct (Prim2SF x) as [s | s | | s m e]; try reflexivity.
  destruct s; reflexivity.
Qed.

Lemma mul_zero_finite (z r : float) :
  (z =? 0) = true -> is_finite r = true -> (z * r =? 0) = true.
Proof.
  intros Hz Hr. apply eqb_zero_Prim2SF in Hz. destruct Hz as (s & Hz).
  apply eqb_zero_Prim2SF. rewrite mul_spec, Hz.
  destruct (finite_cases r Hr) as [(s' & ->) | (s' & m & x & ->)];
    eexists; reflexivity.
Qed.

Lemma add_zero_l_eqb (z p : float) :
  (z =? 0) = true -> is_nan p = false -> (z + p =? p) = true.
Proof.
  intros Hz Hp. apply eqb_zero_Prim2SF in Hz. destruct Hz as (s & Hz).
  assert (Prim2SF p <> S754_nan) as Hn
    by (intros E; apply is_nan_Prim2SF in E; congruence).
  rewrite eqb_spec, add_spec, Hz. unfold SFeqb, SF64add.
  destruct (Prim2SF p) as [s' | s' | | s' m x]; try congruence.
  - destruct s, s'; reflexivity.
  - destruct s'; reflexivity.
  - cbn [SFadd]. rewrite SFcompare_refl by discriminate. reflexivity.
Qed.

Lemma sub_zero_eqb (e z : float) :
  is_finite e = true -> (z =? 0) = true -> (e - z =? e) = true.
Proof.
  intros He Hz. apply eqb_zero_Prim2SF in Hz. destruct Hz as (s & Hz).
  rewrite eqb_spec, sub_spec, Hz. unfold SFeqb, SF64sub.
  destruct (finite_cases e He) as [(s' & ->) | (s' & m & x & ->)].
  - destruct s, s'; reflexivity.
  - cbn [SFsub]. rewrite SFcompare_refl by discriminate. reflexivity.
Qed.

Lemma is_finite_not_nan (x : float) : is_finite x = true -> is_nan x = false.
Proof.
  unfold is_finite. intros H. apply negb_true_iff, orb_false_iff in H. tauto.
Qed.

Lemma to_int64_zero (g : float) : (g =? 0) = true -> to_int64 g = 0%Z.
Proof.
  intros H. apply eqb_zero_Prim2SF in H. destruct H as (s & H).
  unfold to_int64. rewrite H. reflexivity.
Qed.

(** The product of the two columns with a guarantee of zero, in either
    arithmetic: the solar energy is zero and the two energies add up to
    the energy. *)
Lemma column_product_zero (b : bool) (e g : float) :
  is_finite e = true -> (g =? 0) = true ->
  (column_product b e g / 100 =? 0) = true
  /\ (column_product b e g / 100 + (e - column_product b e g / 100) =? e)
     = true.
Proof.
  intros He Hg. destruct b; cbn [column_product].
  - rewrite (to_int64_zero g Hg), Z.mul_0_r.
    change (of_int64 (wrap64 0) / 100) with 0.
    split; [reflexivity|]. rewrite sub_zero_r.
    apply add_zero_l_eqb; [reflexivity | apply is_finite_not_nan, He].
  - apply zero_guarantee_exact; assumption.
Qed.

End FloatFacts.

(** ** Lists, the error monad and sorting *)

Section MapM.
Context {A B : Type}.

Lemma mapM_ok (f : A -> result B) (g : A -> B) (l : list A) :
  (forall a, In a l -> f a = Ok (g a)) -> mapM f l = Ok (map g l).
Proof.
  induction l as [|a l IH]; intros H; [reflexivity|].
  cbn [mapM map]. rewrite (H a (or_introl eq_refl)). cbn [bind].
  rewrite IH by (intros; apply H; right; assumption). reflexivity.
Qed.

Lemma mapM_raise (f : A -> result B) (e : exception) (l : list A) :
  (forall a, In a l -> (exists b, f a = Ok b) \/ f a = Raise e) ->
  (exists a, In a l /\ f a = Raise e) ->
  mapM f l = Raise e.
Proof.
  induction l as [|a l IH]; intros Hall (x & Hx & Ex); [destruct Hx|].
  cbn [mapM]. destruct (Hall a (or_introl eq_refl)) as [(b & Eb) | Ea].
  - rewrite Eb. cbn [bind]. rewrite IH; [reflexivity | |].
    + intros y Hy. apply Hall. right. exact Hy.
    + destruct Hx as [<- | Hx]; [congruence|]. exists x. split; assumption.
  - rewrite Ea. reflexivity.
Qed.

Lemma mapM_inv (f : A -> result B) (l : list A) (l' : list B) :
  mapM f l = Ok l' -> Forall2 (fun a b => f a = Ok b) l l'.
Proof.
  revert l'. induction l as [|a l IH]; intros l' H.
  - cbn in H. injection H as <-. constructor.
  - cbn [mapM] in H. destruct (f a) as [b | e] eqn:Ea; cbn [bind] in H;
      [|discriminate].
    destruct (mapM f l) as [bs | e]; cbn [bind] in H; [|discriminate].
    injection H as <-. constructor; [exact Ea | apply IH; reflexivity].
Qed.
End MapM.

Section SortFacts.
Context {A : Type} (le : A -> A -> bool).

Lemma insert_perm (x : A) (l : list A) : Permutation (insert le x l) (x :: l).
Proof.
  induction l as [|y l IH]; cbn [insert]; [apply Permutation_refl|].
  destruct (le x y); [apply Permutation_refl|].
  eapply perm_trans; [apply perm_skip, IH | apply perm_swap].
Qed.

Lemma sort_values_perm (l : list A) : Permutation (sort_values le l) l.
Proof.
  induction l as [|x l IH]; [apply perm_nil|].
  cbn [sort_values fold_right].
  eapply perm_trans; [apply insert_perm | apply perm_skip, IH].
Qed.

Lemma sort_values_In (x : A) (l : list A) : In x (sort_values le l) <-> In x l.
Proof.
  split; apply Permutation_in;
    [apply sort_values_perm | apply Permutation_sym, sort_values_perm].
Qed.

Hypothesis le_total : forall a b, le a b = false -> le b a = true.
Hypothesis le_trans :
  forall a b c, le a b = true -> le b c = true -> le a c = true.

Lemma insert_sorted (x : A) (l : list A) :
  StronglySorted (fun a b => le a b = true) l ->
StronglySorted (fun a b => le a b = true) (insert le x l).
Proof.
  induction 1 as [|y l Hs IH Hy]; cbn [insert].
  - constructor; constructor.
  - destruct (le x y) eqn:E.
    + constructor; [constructor; assumption|].
      constructor; [exact E|].
      eapply Forall_impl; [|exact Hy]. intros z Hz. exact (le_trans _ _ _ E Hz).
    + constructor; [exact IH|].
      eapply Permutation_Forall; [apply Permutation_sym, insert_perm|].
      constructor; [apply le_total; exact E | exact Hy].
Qed.

Lemma sort_values_sorted (l : list A) :
StronglySorted (fun a b => le a b = true) (sort_values le l).
Proof.
  induction l as [|x l IH]; [constructor|].
  cbn [sort_values fold_right]. apply insert_sorted. exact IH.
Qed.
End SortFacts.

Section SortedFacts.
Context {A B : Type}.

Lemma StronglySorted_impl_In (R R' : A -> A -> Prop) (l : list A) :
  (forall x y, In x l -> In y l -> R x y -> R' x y) ->
  StronglySorted R l -> StronglySorted R' l.
Proof.
  intros H Hs. induction Hs as [|x l Hs IH Hx]; [constructor|].
  constructor.
  - apply IH. intros a b Ha Hb. apply H; right; assumption.
  - rewrite Forall_forall in *. intros y Hy.
    apply H; [left; reflexivity | right; assumption | apply Hx; assumption].
Qed.

Lemma StronglySorted_NoDup (R : A -> A -> Prop) (f : A -> B) (l : list A) :
  NoDup (map f l) -> StronglySorted R l ->
  StronglySorted (fun x y => R x y /\ f x <> f y) l.
Proof.
  intros Hn Hs. induction Hs as [|x l Hs IH Hx]; [constructor|].
  cbn [map] in Hn. inversion Hn as [|? ? Hnin Hn']; subst.
  constructor; [apply IH; assumption|].
  rewrite Forall_forall in *. intros y Hy. split; [apply Hx; assumption|].
  intros E. apply Hnin. rewrite E. apply in_map. assumption.
Qed.

Lemma StronglySorted_map (R : B -> B -> Prop) (f : A -> B) (l : list A) :
  StronglySorted (fun x y => R (f x) (f y)) l -> StronglySorted R (map f l).
Proof.
  induction 1 as [|x l Hs IH Hx]; cbn [map]; constructor; [assumption|].
  rewrite Forall_forall in *. intros y Hy.
  apply in_map_iff in Hy. destruct Hy as (z & <- & Hz). apply Hx; assumption.
Qed.

Lemma StronglySorted_filter (R : A -> A -> Prop) (p : A -> bool) (l : list A) :
  StronglySorted R l -> StronglySorted R (filter p l).
Proof.
  induction 1 as [|x l Hs IH Hx]; cbn [filter]; [constructor|].
  destruct (p x); [|assumption]. constructor; [assumption|].
  rewrite Forall_forall in *. intros y Hy.
  apply filter_In in Hy. apply Hx. tauto.
Qed.
End SortedFacts.

(** ** The run *)

Section Run.

Lemma merge_row_nonempty (b : bool) (e : list GuaranteeRow) (r : LoadRow) :
  merge_row b e r <> [].
Proof.
  unfold merge_row.
  destruct (filter (fun g => Hour g =? hour r) e); cbn [map]; discriminate.
Qed.

Lemma merge_row_load (b : bool) (e : list GuaranteeRow) (r : LoadRow)
    (m : MergedRow) :
  In m (merge_row b e r) -> load m = r /\ int64_product m = b.
Proof.
  unfold merge_row.
  destruct (filter (fun g => Hour g =? hour r) e) as [|g gs].
  - intros [<- | []]. split; reflexivity.
  - intros H. apply in_map_iff in H. destruct H as (x & <- & _).
    split; reflexivity.
Qed.

Lemma merge_left_nonempty (df : list LoadRow) (e : list GuaranteeRow) :
  df <> [] -> merge_left df e <> [].
Proof.
  destruct df as [|r df]; [congruence|]. intros _.
  unfold merge_left. cbn [flat_map].
  pose proof (merge_row_nonempty (merged_int64 (r :: df) e) e r) as H.
  destruct (merge_row _ e r); [congruence | discriminate].
Qed.

Lemma merge_left_In (df : list LoadRow) (e : list GuaranteeRow) (m : MergedRow) :
  In m (merge_left df e) <->
  exists r, In r df /\ In m (merge_row (merged_int64 df e) e r).
Proof. unfold merge_left. apply in_flat_map. Qed.

Lemma merge_left_load (df : list LoadRow) (e : list GuaranteeRow) (m : MergedRow) :
  In m (merge_left df e) -> In (load m) df.
Proof.
  rewrite merge_left_In. intros (r & Hr & Hm).
  apply merge_row_load in Hm. destruct Hm as [-> _]. assumption.
Qed.

Lemma merge_left_int64 (df : list LoadRow) (e : list GuaranteeRow) (m : MergedRow) :
  In m (merge_left df e) -> int64_product m = merged_int64 df e.
Proof.
  rewrite merge_left_In. intros (r & Hr & Hm).
  apply merge_row_load in Hm. tauto.
Qed.

Lemma assign_supply_period_ok (df : list ChargedRow) :
  df <> [] ->
  (forall r, In r df -> valid (datetime (load (merged r))) = true) ->
  (forall r, In r df -> period_in_bounds (datetime (load (merged r))) = true) ->
  assign_supply_period df = Ok (map period_row df).
Proof.
  intros Hne Hv Hb. unfold assign_supply_period.
  rewrite (mapM_ok _ period_row).
  - cbn [bind]. destruct df; [congruence | reflexivity].
  - intros r Hr. rewrite get_supply_period_eq by auto. reflexivity.
Qed.

Lemma assign_supply_period_out_of_bounds (df : list ChargedRow) :
  (forall r, In r df -> valid (datetime (load (merged r))) = true) ->
  (exists r, In r df /\ period_in_bounds (datetime (load (merged r))) = false) ->
  assign_supply_period df = Raise OutOfBoundsDatetime.
Proof.
  intros Hv (x & Hx & Bx). unfold assign_supply_period.
  rewrite (mapM_raise _ OutOfBoundsDatetime); [reflexivity | |].
  - intros r Hr.
    destruct (period_in_bounds (datetime (load (merged r)))) eqn:B.
    + left. rewrite get_supply_period_eq by auto. eexists. reflexivity.
    + right. rewrite get_supply_period_raise by auto. reflexivity.
  - exists x. split; [exact Hx|].
    rewrite get_supply_period_raise by auto. reflexivity.
Qed.

Lemma group_keys_In (df : list PeriodRow) (k : string) :
  In k (group_keys df) <-> In k (map Supply_Period df).
Proof.
  unfold group_keys. rewrite sort_values_In, nodup_In. reflexivity.
Qed.

Lemma group_keys_NoDup (df : list PeriodRow) : NoDup (group_keys df).
Proof.
  unfold group_keys.
  eapply Permutation_NoDup; [apply Permutation_sym, sort_values_perm|].
  apply NoDup_nodup.
Qed.

Lemma pivot_table_label (df : list PeriodRow) (r : string * Amounts) :
  In r (pivot_table df) -> In (fst r) (map Supply_Period df).
Proof.
  unfold pivot_table. rewrite filter_In, in_map_iff.
  intros ((k & <- & Hk) & _). apply group_keys_In. exact Hk.
Qed.

Lemma NoDup_keyed_filter {V : Type} (p : string * V -> bool) (f : string -> V)
    (keys : list string) :
  NoDup keys -> NoDup (map fst (filter p (map (fun k => (k, f k)) keys))).
Proof.
  induction 1 as [|k keys Hnin Hn IH]; cbn [map filter]; [constructor|].
  destruct (p (k, f k)); [|exact IH].
  cbn [map fst]. constructor; [|exact IH].
  intros H. apply Hnin. apply in_map_iff in H.
  destruct H as ((k' & v) & E & H). cbn in E. subst k'.
  apply filter_In in H. destruct H as [H _].
  apply in_map_iff in H. destruct H as (k'' & E & H).
  injection E as -> _. exact H.
Qed.

Lemma pivot_table_NoDup (df : list PeriodRow) :
  NoDup (map fst (pivot_table df)).
Proof. unfold pivot_table. apply NoDup_keyed_filter, group_keys_NoDup. Qed.

Lemma sort_by_period_date_ok (df : list PeriodRow) :
  (forall r, In r df -> strftime_made (Supply_Period r)) ->
  sort_by_period_date (map with_effective_rate (pivot_table df))
  = Ok (period_rows df).
Proof.
  intros Hl. unfold sort_by_period_date.
  rewrite (mapM_ok _ (fun r => (supply_period_date r, r))).
  - reflexivity.
  - intros r Hr. apply in_map_iff in Hr. destruct Hr as (p & <- & Hp).
    apply pivot_table_label, in_map_iff in Hp. destruct Hp as (x & Ex & Hx).
    destruct (Hl x Hx) as (t & Hm & Et).
    unfold supply_period_date. cbn [with_effective_rate Period].
    rewrite <- Ex, Et, strptime_strftime by assumption. reflexivity.
Qed.

(** The summary of a frame whose labels [strftime] made: the grand total
    is appended unless its energy is zero. *)
Lemma summarize_eq (df : list PeriodRow) :
  (forall r, In r df -> strftime_made (Supply_Period r)) ->
  summarize df
  = if (a_kWh (amounts (grand_total (period_rows df))) =? 0)%float
    then Raise ZeroDivisionError
    else Ok (period_rows df ++ [grand_total (period_rows df)]).
Proof.
  intros Hl. unfold summarize. rewrite sort_by_period_date_ok by assumption.
  reflexivity.
Qed.

Lemma period_frame_labels (i : Inputs) (df : list LoadRow) (r : PeriodRow) :
  Forall (fun r => valid (datetime r) = true) df ->
  In r (period_frame i df) ->
  exists a, In a df
    /\ Supply_Period r = strftime_b_y (period_end_spec (datetime a))
    /\ valid (period_end_spec (datetime a)) = true.
Proof.
  intros Hv Hr. unfold period_frame in Hr.
  apply in_map_iff in Hr. destruct Hr as (c & <- & Hc).
  apply in_map_iff in Hc. destruct Hc as (m & <- & Hm).
  apply merge_left_load in Hm.
  exists (load m). split; [assumption|]. split; [reflexivity|].
  apply period_end_spec_valid. rewrite Forall_forall in Hv. apply Hv. assumption.
Qed.

Lemma period_frame_strftime_made (i : Inputs) (df : list LoadRow) (r : PeriodRow) :
  Forall (fun r => valid (datetime r) = true) df ->
  In r (period_frame i df) -> strftime_made (Supply_Period r).
Proof.
  intros Hv Hin. destruct (period_frame_labels i df r Hv Hin) as (a & _ & E & V).
  exists (period_end_spec (datetime a)). split; [|assumption].
  apply valid_fields in V. tauto.
Qed.

(** Where a run that reaches the calculation ends: in
    [OutOfBoundsDatetime] when the period of some row cannot be held, in
    [ZeroDivisionError] when the energy of the grand total is zero, with
    the two tables otherwise. *)
Lemma script_outcome (i : Inputs) (df : list LoadRow) :
  calculating i df ->
  script i
  = if forallb (fun r => period_in_bounds (datetime r)) df
    then
      if (total_energy i df =? 0)%float then Failed ZeroDivisionError
      else Calculated (detailed_charges (period_frame i df))
             (period_rows (period_frame i df)
              ++ [grand_total (period_rows (period_frame i df))])
    else Failed OutOfBoundsDatetime.
Proof.
  intros (Hu & Hne & Hr & Hb & Hv). unfold script. rewrite Hu, Hr, Hb.
  assert (forall c,
            In c (map (calculate_charges (solar_rate i) (line_rental i) (admin_fee i))
                    (merge_left df (edited_df i))) ->
            In (load (merged c)) df) as Hload.
  { intros c Hc. apply in_map_iff in Hc. destruct Hc as (m & <- & Hm).
    apply merge_left_load in Hm. exact Hm. }
  rewrite Forall_forall in Hv.
  destruct (forallb _ df) eqn:B.
  - rewrite forallb_forall in B. rewrite assign_supply_period_ok.
    + fold (period_frame i df). rewrite summarize_eq.
      * unfold total_energy. destruct (_ =? _)%float; reflexivity.
      * intros r Hin. apply (period_frame_strftime_made i df); [|exact Hin].
        apply Forall_forall. exact Hv.
    + intros E. apply map_eq_nil in E. revert E. apply merge_left_nonempty, Hne.
    + intros c Hc. apply Hv, Hload, Hc.
    + intros c Hc. apply B, Hload, Hc.
  - rewrite assign_supply_period_out_of_bounds; [reflexivity | |].
    + intros c Hc. apply Hv, Hload, Hc.
    + assert (exists r, In r df /\ period_in_bounds (datetime r) = false)
        as (r & Hin & Hf).
      { clear -B. induction df as [|a df IH]; [discriminate|].
        cbn [forallb] in B. apply andb_false_iff in B. destruct B as [B | B].
        - exists a. split; [left; reflexivity | exact B].
        - destruct (IH B) as (r & Hin & Hf). exists r. split; [right|]; assumption. }
      pose proof (merge_row_nonempty (merged_int64 df (edited_df i))
                    (edited_df i) r) as Hn.
      destruct (merge_row _ (edited_df i) r) as [|m ms] eqn:M; [congruence|].
      exists (calculate_charges (solar_rate i) (line_rental i) (admin_fee i) m).
      assert (In m (merge_row (merged_int64 df (edited_df i)) (edited_df i) r))
        as Hm by (rewrite M; left; reflexivity).
      split.
      * apply in_map, merge_left_In. exists r. split; assumption.
      * cbn [calculate_charges merged].
        apply merge_row_load in Hm. destruct Hm as [-> _]. exact Hf.
Qed.


(** What a run that produced its tables went through. *)
Lemma script_calculated_frame (i : Inputs) (df : list LoadRow)
    (d : list DetailedRow) (p : list SummaryRow) :
  uploaded_file i = Some df ->
  Forall (fun r => valid (datetime r) = true) df ->
  script i = Calculated d p ->
  calculating i df
  /\ forallb (fun r => period_in_bounds (datetime r)) df = true
  /\ (total_energy i df =? 0)%float = false
  /\ d = detailed_charges (period_frame i df)
  /\ p = period_rows (period_frame i df)
         ++ [grand_total (period_rows (period_frame i df))].
Proof.
  intros Hu Hv Hs.
  assert (calculating i df) as Hc.
  { revert Hs. unfold script, calculating. rewrite Hu.
    destruct (out_of_range (edited_df i)); [discriminate|].
    destruct (calculate_button i); [|discriminate].
    destruct df as [|r df]; [cbn; discriminate|].
    intros _. repeat split; try assumption; try reflexivity. discriminate. }
  rewrite (script_outcome i df Hc) in Hs.
  destruct (forallb _ df); [|discriminate].
  destruct (total_energy i df =? 0)%float; [discriminate|].
  injection Hs as <- <-. repeat split; try reflexivity; apply Hc.
Qed.


End Run.
(** ** The claims on the charge calculation *)

Section Charges.

Lemma wrap64_in_range (z : Z) : - 2 ^ 63 <= z < 2 ^ 63 -> wrap64 z = z.
Proof.
  intros H. unfold wrap64.
  rewrite Z.mod_small; [lia|].
  change (2 ^ 64) with (2 * 2 ^ 63). lia.
Qed.

Lemma calculate_charges_float (sr lr af : float) (m : MergedRow) :
  int64_product m = false ->
  charges (calculate_charges sr lr af m)
  = charges_spec (kWh (load m)) (wesm (load m)) (guarantee m) sr lr af.
Proof.
  intros H. unfold calculate_charges, column_product. rewrite H. reflexivity.
Qed.

Lemma calculate_charges_int64 (sr lr af : float) (m : MergedRow) :
  int64_product m = true ->
  - 2 ^ 63 <= to_int64 (kWh (load m)) * to_int64 (guarantee m) < 2 ^ 63 ->
  charges (calculate_charges sr lr af m)
  = charges_of_product
      (of_int64 (to_int64 (kWh (load m)) * to_int64 (guarantee m)))
      (kWh (load m)) (wesm (load m)) sr lr af.
Proof.
  intros H Hr. unfold calculate_charges, column_product.
  rewrite H, wrap64_in_range by assumption. reflexivity.
Qed.

Lemma merge_row_matched (b : bool) (e : list GuaranteeRow) (r : LoadRow)
    (g : GuaranteeRow) :
  In g e -> Hour g = hour r ->
  In (mkMergedRow r (Solar_Guarantee g) b) (merge_row b e r).
Proof.
  intros Hg Hh. unfold merge_row.
  assert (In g (filter (fun g => Hour g =? hour r) e)) as Hf
    by (apply filter_In; split; [assumption | apply Z.eqb_eq; assumption]).
  destruct (filter (fun g => Hour g =? hour r) e) as [|g0 gs]; [destruct Hf|].
  apply (in_map (fun g => mkMergedRow r (Solar_Guarantee g) b)). exact Hf.
Qed.

Lemma merge_row_unmatched (b : bool) (e : list GuaranteeRow) (r : LoadRow) :
  (forall g, In g e -> Hour g <> hour r) ->
  merge_row b e r = [mkMergedRow r nan b].
Proof.
  intros Hn. unfold merge_row.
  destruct (filter (fun g => Hour g =? hour r) e) as [|g gs] eqn:E; [reflexivity|].
  assert (In g (filter (fun g => Hour g =? hour r) e)) as Hf
    by (rewrite E; left; reflexivity).
  apply filter_In in Hf. destruct Hf as [Hg Hh].
  apply Z.eqb_eq in Hh. destruct (Hn g Hg Hh).
Qed.

(** A row without a guarantee makes the guarantee column a float column. *)
Lemma merged_int64_unmatched (df : list LoadRow) (e : list GuaranteeRow)
    (r : LoadRow) :
  In r df -> (forall g, In g e -> Hour g <> hour r) ->
  merged_int64 df e = false.
Proof.
  intros Hr Hn. unfold merged_int64.
  destruct (forallb (fun r => existsb (fun g => Hour g =? hour r) e) df) eqn:F;
    [|apply andb_false_r].
  exfalso. rewrite forallb_forall in F. specialize (F r Hr).
  apply existsb_exists in F. destruct F as (g & Hg & Hh).
  apply Z.eqb_eq in Hh. exact (Hn g Hg Hh).
Qed.

Lemma calculate_charges_nan (sr lr af : float) (r : LoadRow) :
  charges (calculate_charges sr lr af (mkMergedRow r nan false))
  = mkCharges nan nan nan nan nan.
Proof.
  unfold calculate_charges, column_product.
  cbn [charges load guarantee int64_product].
  rewrite mul_nan_r, div_nan_l, sub_nan_r, !mul_nan_l, add_nan_l. reflexivity.
Qed.

Lemma detailed_charges_In (df : list PeriodRow) (r : PeriodRow) :
  In r df ->
  In (mkDetailedRow (load (merged (charged r))) (charges (charged r)))
     (detailed_charges df).
Proof.
  intros H. unfold detailed_charges. apply sort_values_In.
  apply (in_map (fun r => mkDetailedRow (load (merged (charged r)))
                             (charges (charged r)))). exact H.
Qed.

Lemma period_frame_In (i : Inputs) (df : list LoadRow) (r : LoadRow) (m : MergedRow) :
  In r df -> In m (merge_row (merged_int64 df (edited_df i)) (edited_df i) r) ->
  In (period_row (calculate_charges (solar_rate i) (line_rental i) (admin_fee i) m))
     (period_frame i df).
Proof.
  intros Hr Hm. unfold period_frame. apply in_map, in_map.
  apply merge_left_In. exists r. split; assumption.
Qed.

End Charges.

(** Claim C1, as the code has it.  Every input interval with a matched
    guarantee entry gets a charged row.  The five derived fields of a
    charged row are the ones the specification defines, on the float
    product of energy and guarantee percent when one of the two columns
    is a float column, and on their integer product, as long as it is
    within 64 bits, when both are integer columns.  The interval of the
    end-to-end scenario (10 kWh at a spot price of 5 in hour 8, guarantee
    29, solar rate 2, line rental 1, admin fee 0.5) gets 2.9, 7.1, 8.7,
    39.05 and 47.75, also in the detailed table of the scenario's run. *)
Theorem charges_as_defined :
  (forall (df : list LoadRow) (edited_df : list GuaranteeRow)
          (solar_rate line_rental admin_fee : float)
          (r : LoadRow) (g : GuaranteeRow),
      In r df -> In g edited_df -> Hour g = hour r ->
      exists c,
        In c (map (calculate_charges solar_rate line_rental admin_fee)
                (merge_left df edited_df))
        /\ load (merged c) = r
        /\ guarantee (merged c) = Solar_Guarantee g)
  /\ (forall (df : list LoadRow) (edited_df : list GuaranteeRow)
             (solar_rate line_rental admin_fee : float) (c : ChargedRow),
         In c (map (calculate_charges solar_rate line_rental admin_fee)
                 (merge_left df edited_df)) ->
         let energy := kWh (load (merged c)) in
         let percent := guarantee (merged c) in
         int64_product (merged c) = merged_int64 df edited_df
         /\ (int64_product (merged c) = false ->
             charges c
             = charges_spec energy (wesm (load (merged c))) percent
                 solar_rate line_rental admin_fee)
         /\ (int64_product (merged c) = true ->
             - 2 ^ 63 <= to_int64 energy * to_int64 percent < 2 ^ 63 ->
             charges c
             = charges_of_product
                 (of_int64 (to_int64 energy * to_int64 percent))
                 energy (wesm (load (merged c)))
                 solar_rate line_rental admin_fee))
  /\ map charges
       (map (calculate_charges 2 1 0.5)
          (merge_left [scenario_row 8] default_solar_guarantee))
     = [mkCharges 2.9 7.1 8.7 39.05 47.75]
  /\ (exists detailed_charges_df pivot_df,
         script scenario = Calculated detailed_charges_df pivot_df
         /\ In (mkDetailedRow (scenario_row 8)
                  (mkCharges 2.9 7.1 8.7 39.05 47.75))
               detailed_charges_df).
Proof.
  split; [|split; [|split]].
  - intros df e sr lr af r g Hr Hg Hh.
    exists (calculate_charges sr lr af
              (mkMergedRow r (Solar_Guarantee g) (merged_int64 df e))).
    split; [|split; reflexivity].
    apply in_map, merge_left_In. exists r.
    split; [assumption | apply merge_row_matched; assumption].
  - intros df e sr lr af c Hc. apply in_map_iff in Hc.
    destruct Hc as (m & <- & Hm). cbn [calculate_charges merged].
    split; [apply merge_left_int64; exact Hm|]. split.
    + apply calculate_charges_float.
    + apply calculate_charges_int64.
  - vm_compute. reflexivity.
  - eexists. eexists. split; [vm_compute; reflexivity|].
    do 7 right. left. reflexivity.
Qed.

Lemma charges_as_defined_witness :
  In (scenario_row 8) [scenario_row 8]
  /\ exists c,
       In c (map (calculate_charges 2 1 0.5)
               (merge_left [scenario_row 8] default_solar_guarantee))
       /\ load (merged c) = scenario_row 8
       /\ guarantee (merged c) = 29%float.
Proof.
  split; [left; reflexivity|].
  exact (proj1 charges_as_defined [scenario_row 8] default_solar_guarantee
           2%float 1%float 0.5%float (scenario_row 8)
           (mkGuaranteeRow 8 29 true)
           (or_introl eq_refl)
           (or_intror (or_intror (or_intror (or_intror (or_intror (or_intror
              (or_intror (or_introl eq_refl))))))))
           eq_refl).
Defined.

(** The claim as stated fails: with 10^17 kWh in hour 12, whose guarantee
    is 100, both columns being integer columns, the product of line 65
    wraps around and the solar energy is negative, where the formula of
    the specification gives 10^17. *)
Lemma charges_wrap_around :
  let r := mkLoadRow "Jan-24" (mkTimestamp 2024 1 15 0) 12 5 1e17 true in
  map (fun c => Solar_Consumption (charges c))
    (map (calculate_charges 2 1 0.5) (merge_left [r] default_solar_guarantee))
  = [(-84467440737095520)%float]
  /\ Solar_Consumption (charges_spec 1e17 5 100 2 1 0.5) = 1e17%float
  /\ ((-84467440737095520) =? 1e17)%float = false.
Proof. vm_compute. repeat split. Qed.

(** Claim C2, as the code has it.  The script has no lookup error: a row
    whose hour has no guarantee entry is kept by the left join with a NaN
    guarantee cell, which makes the guarantee a float column, and its
    five derived fields are NaN.  The row does not stop the run: a run
    whose periods a [Timestamp] can hold ends in [ZeroDivisionError]
    when its total energy is zero and produces both tables otherwise,
    the detailed one with that row in it. *)
Theorem unmatched_hour_kept (i : Inputs) (df : list LoadRow) (r : LoadRow)
    (Hrun : calculating i df)
    (Hbounds : forallb (fun r => period_in_bounds (datetime r)) df = true)
    (Hr : In r df)
    (Hno : forall g, In g (edited_df i) -> Hour g <> hour r) :
  filter (fun m => hour (load m) =? hour r) (merge_left [r] (edited_df i))
  = [mkMergedRow r nan false]
  /\ In (mkMergedRow r nan false) (merge_left df (edited_df i))
  /\ charges (calculate_charges (solar_rate i) (line_rental i) (admin_fee i)
                (mkMergedRow r nan false))
     = mkCharges nan nan nan nan nan
  /\ (((total_energy i df =? 0)%float = true
       /\ script i = Failed ZeroDivisionError)
      \/ ((total_energy i df =? 0)%float = false
          /\ exists detailed_charges_df pivot_df,
               script i = Calculated detailed_charges_df pivot_df
               /\ In (mkDetailedRow r (mkCharges nan nan nan nan nan))
                     detailed_charges_df)).
Proof.
  pose proof (merged_int64_unmatched df (edited_df i) r Hr Hno) as Hf.
  assert (In (mkMergedRow r nan false)
            (merge_row (merged_int64 df (edited_df i)) (edited_df i) r)) as Hin.
  { rewrite merge_row_unmatched, Hf by assumption. left. reflexivity. }
  split; [|split; [|split]].
  - unfold merge_left. cbn [flat_map]. rewrite app_nil_r.
    rewrite merge_row_unmatched by assumption.
    rewrite (merged_int64_unmatched [r] (edited_df i) r
               (or_introl eq_refl) Hno).
    cbn [filter load]. rewrite Z.eqb_refl. reflexivity.
  - apply merge_left_In. exists r. split; assumption.
  - apply calculate_charges_nan.
  - rewrite (script_outcome i df Hrun), Hbounds.
    destruct (total_energy i df =? 0)%float; [left; split; reflexivity|].
    right. split; [reflexivity|]. eexists. eexists. split; [reflexivity|].
    pose proof (detailed_charges_In _ _ (period_frame_In i df r _ Hr Hin)) as H.
    cbn [period_row charged] in H.
    rewrite calculate_charges_nan in H. exact H.
Qed.

Lemma unmatched_hour_kept_witness :
  In (mkMergedRow
        (mkLoadRow "Jan-24" (mkTimestamp 2024 1 15 0) 25 5 10 true) nan false)
     (merge_left unmatched_rows (edited_df unmatched_run)).
Proof.
  refine (proj1 (proj2 (unmatched_hour_kept unmatched_run unmatched_rows
            (mkLoadRow "Jan-24" (mkTimestamp 2024 1 15 0) 25 5 10 true)
            _ _ _ _))).
  - repeat split; try reflexivity; try discriminate.
    repeat constructor.
  - reflexivity.
  - left. reflexivity.
  - intros g Hg. cbn in Hg.
    repeat (destruct Hg as [<- | Hg]; [cbn; discriminate|]). destruct Hg.
Defined.

(** The claim as stated fails: the run on a load profile with a row for
    hour 25 is not rejected; it produces the detailed table with both
    rows and a summary whose charge totals leave the unmatched row out. *)
Lemma unmatched_hour_not_rejected :
  (forall g, In g default_solar_guarantee -> Hour g <> 25)
  /\ script unmatched_run
     = Calculated
         [mkDetailedRow
            (mkLoadRow "Jan-24" (mkTimestamp 2024 1 15 0) 25 5 10 true)
            (mkCharges nan nan nan nan nan);
          mkDetailedRow
            (mkLoadRow "Jan-24" (mkTimestamp 2024 1 16 0) 12 5 10 true)
            (mkCharges 10 0 30 0 30)]
         [mkSummaryRow "Jan-24" (mkAmounts 20 10 0 30 0 30 (Some 20)) 1.5;
          mkSummaryRow "Grand Total" (mkAmounts 20 10 0 30 0 30 (Some 20)) 1.5]
  /\ (forall e, script unmatched_run <> Failed e).
Proof.
  split; [|split].
  - intros g Hg. cbn in Hg.
    repeat (destruct Hg as [<- | Hg]; [cbn; discriminate|]). destruct Hg.
  - vm_compute. reflexivity.
  - intros e. vm_compute. discriminate.
Qed.
(** ** The claim on the validation of the guarantee table *)

Section Validation.

Local Open Scope float_scope.

Lemma clip_below (x : float) : (x <? 0) = true -> clip 0 100 x = 0.
Proof. intros H. unfold clip. rewrite H. reflexivity. Qed.

Lemma clip_above (x : float) : (100 <? x) = true -> clip 0 100 x = 100.
Proof.
  intros H. unfold clip. rewrite (above_100_not_below_0 x H), H. reflexivity.
Qed.

Lemma clip_inside (x : float) :
  (0 <=? x) = true -> (x <=? 100) = true -> clip 0 100 x = x.
Proof.
  intros H0 H100. unfold clip.
  destruct (in_range_not_clipped x H0 H100) as [-> ->]. reflexivity.
Qed.

End Validation.

(** Claim C5.  When a guarantee percentage is below 0 or above 100, the
    run clips the table (a cell below 0 becomes 0, a cell above 100
    becomes 100, a cell inside the range and the hours stay as they are)
    and stops there: whatever the button, it computes no charge table. *)
Theorem out_of_range_stops (i : Inputs) (df : list LoadRow)
    (Hfile : uploaded_file i = Some df)
    (Hrange : out_of_range (edited_df i) = true) :
  script i = Stopped (clip_guarantee (edited_df i))
  /\ Forall2
       (fun g c =>
          Hour c = Hour g
          /\ ((Solar_Guarantee g <? 0)%float = true ->
              Solar_Guarantee c = 0%float)
          /\ ((100 <? Solar_Guarantee g)%float = true ->
              Solar_Guarantee c = 100%float)
          /\ ((0 <=? Solar_Guarantee g)%float = true ->
              (Solar_Guarantee g <=? 100)%float = true ->
              Solar_Guarantee c = Solar_Guarantee g))
       (edited_df i) (clip_guarantee (edited_df i))
  /\ (forall detailed_charges_df pivot_df,
         script i <> Calculated detailed_charges_df pivot_df).
Proof.
  assert (script i = Stopped (clip_guarantee (edited_df i))) as Hs
    by (unfold script; rewrite Hfile, Hrange; reflexivity).
  split; [exact Hs|]. split.
  - unfold clip_guarantee. clear. generalize (edited_df i) as gs.
    induction gs as [|g gs IH]; cbn [map]; constructor; [|exact IH].
    cbn [Hour Solar_Guarantee]. split; [reflexivity|].
    split; [apply clip_below|]. split; [apply clip_above | apply clip_inside].
  - intros d p. rewrite Hs. discriminate.
Qed.

Lemma out_of_range_stops_witness :
  out_of_range out_of_range_table = true
  /\ script out_of_range_run
     = Stopped [mkGuaranteeRow 1 0 true; mkGuaranteeRow 2 50 true;
                mkGuaranteeRow 3 100 true].
Proof.
  split; [reflexivity|].
  exact (proj1 (out_of_range_stops out_of_range_run zero_energy_rows
                  eq_refl eq_refl)).
Defined.

(** ** The claim on the energy split *)



(** ** The claims on the summary *)

Section Summary.

Lemma period_rows_In (df : list PeriodRow) (r : SummaryRow) :
  In r (period_rows df) <-> In r (map with_effective_rate (pivot_table df)).
Proof.
  unfold period_rows. rewrite in_map_iff. split.
  - intros ((k, r') & E & H). cbn in E. subst r'.
    apply sort_values_In, in_map_iff in H.
    destruct H as (x & E & H). injection E as _ ->. exact H.
  - intros H. exists (supply_period_date r, r). split; [reflexivity|].
    apply sort_values_In.
    apply (in_map (fun r => (supply_period_date r, r))). exact H.
Qed.

Lemma period_rows_rate (df : list PeriodRow) (r : SummaryRow) :
  In r (period_rows df) -> Effective_Rate r = effective_rate (amounts r).
Proof.
  rewrite period_rows_In, in_map_iff. intros (p & <- & _). reflexivity.
Qed.

Lemma period_rows_label (df : list PeriodRow) (r : SummaryRow) :
  In r (period_rows df) -> In (Period r) (map Supply_Period df).
Proof.
  rewrite period_rows_In, in_map_iff. intros (p & <- & Hp).
  apply pivot_table_label. exact Hp.
Qed.

Lemma period_rows_NoDup (df : list PeriodRow) :
  NoDup (map Period (period_rows df)).
Proof.
  unfold period_rows. rewrite map_map.
  eapply Permutation_NoDup.
  - apply Permutation_map, Permutation_sym, sort_values_perm.
  - rewrite !map_map. cbn [snd with_effective_rate Period].
    apply pivot_table_NoDup.
Qed.

Lemma effective_rate_zero (a : Amounts) :
  (a_kWh a =? 0)%float = true ->
  is_finite (effective_rate a) = false
  /\ (effective_rate a = nan \/ effective_rate a = infinity
      \/ effective_rate a = neg_infinity).
Proof.
  intros H. unfold effective_rate.
  split; [apply div_zero_not_finite | apply div_zero_cases]; exact H.
Qed.

(** No label that [strftime] makes is the text of the grand total. *)
Lemma strftime_made_not_grand_total (s : string) :
  strftime_made s -> s <> "Grand Total"%string.
Proof.
  intros (t & Hm & ->) E.
  pose proof (strptime_strftime t Hm) as P. rewrite E in P. discriminate P.
Qed.

Lemma frame_sum_short (xs : list float) :
  (List.length xs < 8)%nat ->
  frame_sum xs
  = (0 + fold_left PrimFloat.add
           (map (fun x => if is_nan x then 0 else x) xs) 0)%float.
Proof.
  intros H. unfold frame_sum.
  set (cells := map (fun x => if is_nan x then 0%float else x) xs).
  assert (List.length cells < 8)%nat as Hc
    by (unfold cells; rewrite length_map; exact H).
  assert (block_sum cells = fold_left PrimFloat.add cells 0%float) as Hb.
  { unfold block_sum. apply Nat.ltb_lt in Hc. rewrite Hc. reflexivity. }
  destruct (List.length cells) as [|n] eqn:L; cbn [pairwise_sum].
  - rewrite Hb. reflexivity.
  - rewrite L.
    replace (S n <=? 128)%nat with true
      by (symmetry; apply Nat.leb_le; lia).
    rewrite Hb. reflexivity.
Qed.

Lemma frame_sum_column (column : Amounts -> float) (rows : list SummaryRow) :
  (List.length rows < 8)%nat ->
  frame_sum (map column (map amounts rows)) = column_total column rows.
Proof.
  intros H. rewrite frame_sum_short by (rewrite !length_map; exact H).
  unfold column_total. rewrite !map_map. reflexivity.
Qed.

Lemma all_some_Some (zs : list Z) : all_some (map Some zs) = Some zs.
Proof.
  induction zs as [|z zs IH]; [reflexivity|].
  cbn [map all_some]. rewrite IH. reflexivity.
Qed.

Lemma all_some_None (l : list (option Z)) : In None l -> all_some l = None.
Proof.
  induction l as [|[z|] l IH]; intros H; [destruct H| |reflexivity].
  cbn [all_some]. rewrite IH; [reflexivity|].
  destruct H as [H | H]; [discriminate | exact H].
Qed.

(** What a run that produced its tables has in its summary. *)
Lemma script_summary (i : Inputs) (df : list LoadRow)
    (d : list DetailedRow) (p : list SummaryRow) :
  uploaded_file i = Some df ->
  Forall (fun r => valid (datetime r) = true) df ->
  script i = Calculated d p ->
  p = period_rows (period_frame i df)
      ++ [grand_total (period_rows (period_frame i df))]
  /\ (a_kWh (amounts (grand_total (period_rows (period_frame i df)))) =? 0)%float
     = false
  /\ Forall (fun r =>
               Period r <> "Grand Total"%string
               /\ exists a label period_end,
                    In a df
                    /\ get_supply_period (datetime a) = Ok (label, period_end)
                    /\ Period r = label)
       (period_rows (period_frame i df)).
Proof.
  intros Hu Hv Hs.
  destruct (script_calculated_frame i df d p Hu Hv Hs)
    as (_ & Hb & Hz & _ & Hp).
  split; [exact Hp|]. split; [exact Hz|].
  rewrite forallb_forall in Hb.
  apply Forall_forall. intros r Hr.
  apply period_rows_label, in_map_iff in Hr. destruct Hr as (q & Eq & Hq).
  destruct (period_frame_labels i df q Hv Hq) as (a & Ha & El & Hval).
  split.
  - apply strftime_made_not_grand_total.
    exists (period_end_spec (datetime a)).
    apply valid_fields in Hval. split; [tauto | congruence].
  - exists a, (strftime_b_y (period_end_spec (datetime a))),
           (period_end_spec (datetime a)).
    split; [exact Ha|]. split; [|congruence].
    rewrite Forall_forall in Hv. apply get_supply_period_eq; auto.
Qed.

End Summary.

(** Claim C4, where the code does it and where it does not.  In a run
    that produces its tables every group of the pivot table has its row
    in the summary, every row has the quotient of its total charge by its
    energy as effective rate, and where the energy of a period is zero
    that quotient is NaN or an infinity: a period without energy does not
    stop the run.  The grand total is different: when its energy is zero
    the run ends in [ZeroDivisionError] and produces no table, as it
    does on a load profile of one row with 0 kWh. *)
Theorem zero_energy_rate :
  (forall (i : Inputs) (df : list LoadRow)
          (detailed_charges_df : list DetailedRow) (pivot_df : list SummaryRow),
      uploaded_file i = Some df ->
      Forall (fun r => valid (datetime r) = true) df ->
      script i = Calculated detailed_charges_df pivot_df ->
      (forall label sums,
          In (label, sums) (pivot_table (period_frame i df)) ->
          In (mkSummaryRow label sums
                (a_Total_Charge sums / a_kWh sums)%float) pivot_df)
      /\ Forall (fun r =>
                   Effective_Rate r
                   = (a_Total_Charge (amounts r) / a_kWh (amounts r))%float)
           pivot_df
      /\ Forall (fun r =>
                   (a_kWh (amounts r) =? 0)%float = true ->
                   Period r <> "Grand Total"%string
                   /\ is_finite (Effective_Rate r) = false
                   /\ (Effective_Rate r = nan \/ Effective_Rate r = infinity
                       \/ Effective_Rate r = neg_infinity))
           pivot_df)
  /\ (forall (i : Inputs) (df : list LoadRow),
         calculating i df ->
         forallb (fun r => period_in_bounds (datetime r)) df = true ->
         (total_energy i df =? 0)%float = true ->
         script i = Failed ZeroDivisionError)
  /\ script zero_total_run = Failed ZeroDivisionError
  /\ (exists detailed_charges_df pivot_df,
         script zero_energy_run = Calculated detailed_charges_df pivot_df
         /\ map Period pivot_df = ["Jan-24"; "Feb-24"; "Grand Total"]%string
         /\ map Effective_Rate pivot_df = [nan; 3; 3]%float).
Proof.
  split; [|split; [|split]].
  - intros i df d p Hu Hv Hs.
    destruct (script_summary i df d p Hu Hv Hs) as (-> & Hz & Hrows).
    set (rows := period_rows (period_frame i df)) in *.
    assert (forall r, In r (rows ++ [grand_total rows]) ->
                      Effective_Rate r = effective_rate (amounts r)) as Hrate.
    { intros r Hr. apply in_app_or in Hr. destruct Hr as [Hr | [<- | []]].
      - apply period_rows_rate in Hr. exact Hr.
      - reflexivity. }
    split; [|split].
    + intros label sums H. apply in_or_app. left. apply period_rows_In.
      apply (in_map with_effective_rate) in H. exact H.
    + apply Forall_forall. intros r Hr. apply Hrate. exact Hr.
    + apply Forall_forall. intros r Hr Hzero. split.
      * apply in_app_or in Hr. destruct Hr as [Hr | [<- | []]].
        -- rewrite Forall_forall in Hrows. apply Hrows. exact Hr.
        -- congruence.
      * rewrite (Hrate r Hr). apply effective_rate_zero. exact Hzero.
  - intros i df Hc Hb Hz. rewrite (script_outcome i df Hc), Hb, Hz.
    reflexivity.
  - vm_compute. reflexivity.
  - eexists. eexists. split; [vm_compute; reflexivity|].
    split; reflexivity.
Qed.

Lemma zero_energy_rate_witness :
  calculating zero_total_run zero_total_rows
  /\ (total_energy zero_total_run zero_total_rows =? 0)%float = true
  /\ script zero_total_run = Failed ZeroDivisionError.
Proof.
  assert (calculating zero_total_run zero_total_rows) as Hrun.
  { repeat split; try reflexivity; try discriminate. repeat constructor. }
  split; [exact Hrun|]. split; [reflexivity|].
  exact (proj1 (proj2 zero_energy_rate) zero_total_run zero_total_rows
           Hrun eq_refl eq_refl).
Defined.

(** Claim C6, where the code does it and where it does not.  The summary
    of a run that produces its tables is the per-period rows followed by
    one more row.  That row is labelled "Grand Total"; each of its five
    consumption and charge amounts is the column sum of the frame over
    the per-period rows, which for fewer than 8 periods is the cells
    added one after the other; its energy is that sum too, or the integer
    sum when the energy is an integer column; its effective rate is its
    own total charge over its own energy, which is not zero.  The
    per-period rows carry period labels of the input and none of them is
    labelled "Grand Total".  A load profile of one row with 0 kWh gets no
    grand total: the run ends in [ZeroDivisionError]. *)
Theorem grand_total_sums :
  (forall (i : Inputs) (df : list LoadRow)
          (detailed_charges_df : list DetailedRow) (pivot_df : list SummaryRow),
      uploaded_file i = Some df ->
      Forall (fun r => valid (datetime r) = true) df ->
      script i = Calculated detailed_charges_df pivot_df ->
      exists rows total,
        pivot_df = rows ++ [total]
        /\ Period total = "Grand Total"%string
        /\ a_Solar_Consumption (amounts total)
           = frame_sum (map (fun r => a_Solar_Consumption (amounts r)) rows)
        /\ a_Non_Solar_Consumption (amounts total)
           = frame_sum (map (fun r => a_Non_Solar_Consumption (amounts r)) rows)
        /\ a_Solar_Charge (amounts total)
           = frame_sum (map (fun r => a_Solar_Charge (amounts r)) rows)
        /\ a_Non_Solar_Charge (amounts total)
           = frame_sum (map (fun r => a_Non_Solar_Charge (amounts r)) rows)
        /\ a_Total_Charge (amounts total)
           = frame_sum (map (fun r => a_Total_Charge (amounts r)) rows)
        /\ ((List.length rows < 8)%nat ->
            a_Solar_Consumption (amounts total)
            = column_total a_Solar_Consumption rows
            /\ a_Non_Solar_Consumption (amounts total)
               = column_total a_Non_Solar_Consumption rows
            /\ a_Solar_Charge (amounts total)
               = column_total a_Solar_Charge rows
            /\ a_Non_Solar_Charge (amounts total)
               = column_total a_Non_Solar_Charge rows
            /\ a_Total_Charge (amounts total)
               = column_total a_Total_Charge rows)
        /\ (forall zs,
               map (fun r => a_kWh_int64 (amounts r)) rows = map Some zs ->
               a_kWh (amounts total)
               = of_int64 (wrap64 (fold_left Z.add zs 0)))
        /\ (In None (map (fun r => a_kWh_int64 (amounts r)) rows) ->
            a_kWh (amounts total)
            = frame_sum (map (fun r => a_kWh (amounts r)) rows)
            /\ ((List.length rows < 8)%nat ->
                a_kWh (amounts total) = column_total a_kWh rows))
        /\ Effective_Rate total
           = (a_Total_Charge (amounts total) / a_kWh (amounts total))%float
        /\ (a_kWh (amounts total) =? 0)%float = false
        /\ Forall (fun r =>
                     Period r <> "Grand Total"%string
                     /\ exists a label period_end,
                         In a df
                         /\ get_supply_period (datetime a)
                            = Ok (label, period_end)
                         /\ Period r = label)
             rows)
  /\ script zero_total_run = Failed ZeroDivisionError.
Proof.
  split; [|vm_compute; reflexivity].
  intros i df d p Hu Hv Hs.
  destruct (script_summary i df d p Hu Hv Hs) as (-> & Hz & Hrows).
  set (rows := period_rows (period_frame i df)) in *.
  exists rows, (grand_total rows).
  split; [reflexivity|]. split; [reflexivity|].
  unfold grand_total in *.
  cbn [Period amounts Effective_Rate a_kWh a_Solar_Consumption
       a_Non_Solar_Consumption a_Solar_Charge a_Non_Solar_Charge
       a_Total_Charge] in *.
  rewrite !map_map in *.
  repeat (split; [rewrite <- map_map; reflexivity|]).
  split.
  { intros Hlen.
    repeat split; rewrite <- (map_map amounts); apply frame_sum_column;
      exact Hlen. }
  split.
  { intros zs E. unfold frame_kWh_sum. rewrite map_map, E, all_some_Some.
    reflexivity. }
  split.
  { intros Hn. unfold frame_kWh_sum.
    rewrite map_map, (all_some_None _ Hn). cbn [fst].
    split; [rewrite map_map; reflexivity|].
    intros Hlen. apply frame_sum_column. exact Hlen. }
  split; [reflexivity|]. split; [exact Hz | exact Hrows].
Qed.

Lemma grand_total_sums_witness :
  exists rows total,
    script zero_energy_run
    = Calculated
        (detailed_charges (period_frame zero_energy_run zero_energy_rows))
        (rows ++ [total])
    /\ Period total = "Grand Total"%string
    /\ a_Total_Charge (amounts total) = column_total a_Total_Charge rows.
Proof.
  assert (script zero_energy_run
          = Calculated
              (detailed_charges (period_frame zero_energy_run zero_energy_rows))
              (period_rows (period_frame zero_energy_run zero_energy_rows)
               ++ [grand_total
                     (period_rows (period_frame zero_energy_run zero_energy_rows))]))
    as Hs by (vm_compute; reflexivity).
  destruct (proj1 grand_total_sums zero_energy_run zero_energy_rows _ _
              eq_refl ltac:(repeat constructor) Hs)
    as (rows & total & Hp & Hl & _ & _ & _ & _ & _ & Hshort & _).
  exists rows, total. split; [rewrite <- Hp; exact Hs|]. split; [exact Hl|].
  assert (List.length
            (period_rows (period_frame zero_energy_run zero_energy_rows))
          = 2%nat) as Hlen by (vm_compute; reflexivity).
  apply (f_equal (@List.length SummaryRow)) in Hp.
  rewrite !length_app, Hlen in Hp. cbn [List.length] in Hp.
  apply Hshort. lia.
Defined.
(** ** The claim on the order of the summary *)

Section Order.

(** Inside the window of ['%y'] the [Supply Period Date] of a label is the
    first day of the month of the period end. *)
Lemma supply_period_date_window (r : SummaryRow) (t : Timestamp) :
  valid t = true -> in_pivot_window t = true ->
  Period r = strftime_b_y t ->
  supply_period_date r = mkTimestamp (year t) (month t) 1 0.
Proof.
  intros Hv Hw E. apply valid_fields in Hv. destruct Hv as (Hm & _ & _).
  unfold in_pivot_window in Hw. rewrite andb_true_iff, !Z.leb_le in Hw.
  unfold supply_period_date.
  rewrite E, strptime_strftime, pivot_year_window by lia. reflexivity.
Qed.

Lemma strftime_same_month (a b : Timestamp) :
  year a = year b -> month a = month b -> strftime_b_y a = strftime_b_y b.
Proof. intros Ey Em. unfold strftime_b_y. rewrite Ey, Em. reflexivity. Qed.

Lemma period_end_in_window_spec (r : LoadRow) :
  valid (datetime r) = true ->
  period_end_in_window r = true ->
  in_pivot_window (period_end_spec (datetime r)) = true.
Proof.
  intros Hv. unfold period_end_in_window.
  destruct (get_supply_period (datetime r)) as [[l pe] | e] eqn:G;
    [|discriminate].
  apply get_supply_period_inv in G; [|exact Hv]. destruct G as [_ ->].
  intros H. exact H.
Qed.

(** The key step: two summary rows in the order of their parsed labels,
    with different labels, have their period ends in that order. *)
Lemma parsed_order_is_period_order (ra rb : SummaryRow) (pa pb : Timestamp) :
  valid pa = true -> valid pb = true ->
  in_pivot_window pa = true -> in_pivot_window pb = true ->
  Period ra = strftime_b_y pa -> Period rb = strftime_b_y pb ->
  Calendar.leb (supply_period_date ra) (supply_period_date rb) = true ->
  Period ra <> Period rb ->
  Calendar.ltb pa pb = true.
Proof.
  intros Va Vb Wa Wb Ea Eb Hle Hne.
  rewrite (supply_period_date_window ra pa Va Wa Ea) in Hle.
  rewrite (supply_period_date_window rb pb Vb Wb Eb) in Hle.
  apply leb_lex in Hle. apply ltb_lex.
  unfold lex_lt in *. cbn [year month day nanos] in Hle.
  destruct (Z.eq_dec (year pa) (year pb)) as [Ey|Ey];
    [destruct (Z.eq_dec (month pa) (month pb)) as [Em|Em]|]; try lia.
  exfalso. apply Hne. rewrite Ea, Eb. apply strftime_same_month; assumption.
Qed.

Lemma period_rows_sorted (df : list PeriodRow) :
  StronglySorted
    (fun ra rb =>
       Calendar.leb (supply_period_date ra) (supply_period_date rb) = true
       /\ Period ra <> Period rb)
    (period_rows df).
Proof.
  apply (StronglySorted_NoDup _ Period); [apply period_rows_NoDup|].
  unfold period_rows.
  set (keyed := map (fun r => (supply_period_date r, r))
                  (map with_effective_rate (pivot_table df))).
  apply StronglySorted_map.
  apply (StronglySorted_impl_In
           (fun x y => Calendar.leb (fst x) (fst y) = true)).
  - intros x y Hx Hy Hle.
    apply sort_values_In, in_map_iff in Hx. destruct Hx as (rx & <- & _).
    apply sort_values_In, in_map_iff in Hy. destruct Hy as (ry & <- & _).
    exact Hle.
  - apply sort_values_sorted.
    + intros a b. apply leb_total.
    + intros a b c. apply leb_trans.
Qed.

End Order.

(** Claim C7, as the code has it.  When a run on a load profile whose
    period ends all lie in the years 1969 to 2068 produces its tables,
    whatever the order of the rows of the profile, the summary is the
    per-period rows followed by the grand total row; the per-period rows
    carry period labels of the input and stand in the chronological
    order of the period ends: of two rows, the period end of every
    interval of the earlier row is before the period end of every
    interval of the later row. *)
Theorem summary_order (i : Inputs) (df : list LoadRow)
    (detailed_charges_df : list DetailedRow) (pivot_df : list SummaryRow)
    (Hfile : uploaded_file i = Some df)
    (Hvalid : Forall (fun r => valid (datetime r) = true) df)
    (Hwindow : Forall (fun r => period_end_in_window r = true) df)
    (Hrun : script i = Calculated detailed_charges_df pivot_df) :
  exists rows,
    pivot_df = rows ++ [grand_total rows]
    /\ Period (grand_total rows) = "Grand Total"%string
    /\ Forall (fun r =>
                 Period r <> "Grand Total"%string
                 /\ exists a period_end,
                     In a df
                     /\ get_supply_period (datetime a)
                        = Ok (Period r, period_end))
         rows
    /\ StronglySorted
         (fun ra rb =>
            forall a b pa pb,
              In a df -> In b df ->
              get_supply_period (datetime a) = Ok (Period ra, pa) ->
              get_supply_period (datetime b) = Ok (Period rb, pb) ->
              Calendar.ltb pa pb = true)
         rows.
Proof.
  destruct (script_summary i df _ _ Hfile Hvalid Hrun) as (Hp & _ & Hrows).
  exists (period_rows (period_frame i df)).
  split; [exact Hp|]. split; [reflexivity|].
  rewrite Forall_forall in Hvalid, Hwindow. split.
  - eapply Forall_impl; [|exact Hrows].
    intros r (Hne & a & label & pe & Ha & G & E).
    split; [exact Hne|]. exists a, pe. split; [exact Ha|]. congruence.
  - eapply StronglySorted_impl_In; [|apply period_rows_sorted].
    intros ra rb _ _ [Hle Hne] a b pa pb Ha Hb Ga Gb.
    pose proof (period_end_in_window_spec a (Hvalid a Ha) (Hwindow a Ha)) as Wa.
    pose proof (period_end_in_window_spec b (Hvalid b Hb) (Hwindow b Hb)) as Wb.
    apply get_supply_period_inv in Ga, Gb; try (apply Hvalid; assumption).
    destruct Ga as [Ela ->], Gb as [Elb ->].
    apply (parsed_order_is_period_order ra rb); try assumption;
      apply period_end_spec_valid, Hvalid; assumption.
Qed.

Lemma summary_order_witness :
  exists rows,
    script zero_energy_run
    = Calculated
        (detailed_charges (period_frame zero_energy_run zero_energy_rows))
        (rows ++ [grand_total rows])
    /\ map Period rows = ["Jan-24"; "Feb-24"]%string.
Proof.
  assert (script zero_energy_run
          = Calculated
              (detailed_charges (period_frame zero_energy_run zero_energy_rows))
              (period_rows (period_frame zero_energy_run zero_energy_rows)
               ++ [grand_total
                     (period_rows (period_frame zero_energy_run zero_energy_rows))]))
    as Hs by (vm_compute; reflexivity).
  destruct (summary_order zero_energy_run zero_energy_rows _ _ eq_refl
              ltac:(repeat constructor) ltac:(repeat constructor) Hs)
    as (rows & Hp & _).
  exists rows. split; [rewrite <- Hp; exact Hs|].
  apply app_inj_tail in Hp. destruct Hp as [<- _].
  vm_compute. reflexivity.
Defined.

(** The claim as stated fails: of the periods ending on 25 December 2068
    and 25 January 2069, the later one comes first in the summary, for
    its label "Jan-69" is read back as January 1969. *)
Lemma summary_order_counterexample :
  get_supply_period (mkTimestamp 2068 12 10 0)
  = Ok ("Dec-68"%string, mkTimestamp 2068 12 25 0)
  /\ get_supply_period (mkTimestamp 2069 1 10 0)
     = Ok ("Jan-69"%string, mkTimestamp 2069 1 25 0)
  /\ Calendar.ltb (mkTimestamp 2068 12 25 0) (mkTimestamp 2069 1 25 0) = true
  /\ script turn_of_2069_run
     = Calculated
         [mkDetailedRow
            (mkLoadRow "Dec-68" (mkTimestamp 2068 12 10 0) 12 5 10 true)
            (mkCharges 10 0 30 0 30);
          mkDetailedRow
            (mkLoadRow "Jan-69" (mkTimestamp 2069 1 10 0) 12 5 10 true)
            (mkCharges 10 0 30 0 30)]
         [mkSummaryRow "Jan-69" (mkAmounts 10 10 0 30 0 30 (Some 10)) 3;
          mkSummaryRow "Dec-68" (mkAmounts 10 10 0 30 0 30 (Some 10)) 3;
          mkSummaryRow "Grand Total" (mkAmounts 20 20 0 60 0 60 (Some 20)) 3].
Proof. repeat split; vm_compute; reflexivity. Qed.
(** * Further properties *)

(** ** The supply period of a date *)

Section PeriodFacts.

Lemma add_months_next_day (t : Timestamp) :
  26 <= day t -> 26 <= day (add_months t 1).
Proof.
  intros Hd. unfold add_months. cbn [day].
  match goal with |- context [days_in_month ?y ?m] =>
    pose proof (days_in_month_ge_28 y m) end.
  lia.
Qed.

Lemma leb_ltb_of_ne (a b : Timestamp) :
  Calendar.leb a b = true -> a <> b -> Calendar.ltb a b = true.
Proof.
  intros Hle Hne. apply leb_lex in Hle. apply ltb_lex.
  destruct a as [ya ma da na], b as [yb mb db nb].
  unfold lex_lt in *. cbn [year month day nanos] in *.
  destruct (Z.eq_dec ya yb), (Z.eq_dec ma mb), (Z.eq_dec da db),
    (Z.eq_dec na nb); try lia.
  subst. congruence.
Qed.

Lemma period_end_spec_fields (d : Timestamp) :
  exists Y M,
    period_end_spec d = mkTimestamp Y M 25 (nanos d)
    /\ (day d < 26 /\ Y = year d /\ M = month d
        \/ 26 <= day d /\ month d = 12 /\ Y = year d + 1 /\ M = 1
        \/ 26 <= day d /\ month d <> 12 /\ Y = year d /\ M = month d + 1).
Proof.
  unfold period_end_spec, following_month.
  destruct (Z.leb_spec 26 (day d)); [destruct (Z.eqb_spec (month d) 12)|];
    eexists; eexists; (split; [reflexivity | lia]).
Qed.

(** The end of a period a [Timestamp] can hold is a date of that kind
    too. *)
Lemma period_end_spec_in_bounds (d : Timestamp) :
  valid d = true -> period_in_bounds d = true ->
  period_in_bounds (period_end_spec d) = true.
Proof.
  intros Hv Hb. apply valid_fields in Hv. destruct Hv as (Hm & Hd & Hn).
  rewrite period_in_bounds_lex in *.
  destruct (period_end_spec_fields d) as (Y & M & -> & C).
  unfold lex_lt, ns_per_day in *. cbn [year month day nanos] in *. lia.
Qed.

End PeriodFacts.

(** Every date lies in the period it is given: it is not after the period
    end, and the period end comes before the same date a month later. *)
Theorem period_contains_date (d : Timestamp) (label : string)
    (period_end : Timestamp)
    (Hv : valid d = true)
    (Hp : get_supply_period d = Ok (label, period_end)) :
  Calendar.leb d period_end = true
  /\ Calendar.ltb period_end (add_months d 1) = true.
Proof.
  apply get_supply_period_inv in Hp; [|assumption]. destruct Hp as [_ ->].
  apply valid_fields in Hv. destruct Hv as (Hm & Hd & Hn).
  destruct (add_months_next d Hm) as [Ey Em].
  rewrite leb_lex, ltb_lex. unfold lex_lt, period_end_spec, following_month.
  destruct (Z.leb_spec 26 (day d)) as [H26 | H26].
  - pose proof (add_months_next_day d H26) as Hday.
    destruct (Z.eqb_spec (month d) 12) as [E12 | E12];
      cbn [year month day nanos]; rewrite Ey, Em;
      replace (nanos (add_months d 1)) with (nanos d) by reflexivity;
      (destruct (Z.eqb_spec (month d) 12); [|]; try lia).
  - cbn [year month day nanos]. rewrite Ey, Em.
    destruct (Z.eqb_spec (month d) 12); lia.
Qed.

Lemma period_contains_date_witness :
  valid (mkTimestamp 2024 1 31 0) = true
  /\ Calendar.leb (mkTimestamp 2024 1 31 0) (mkTimestamp 2024 2 25 0) = true
  /\ Calendar.ltb (mkTimestamp 2024 2 25 0)
       (add_months (mkTimestamp 2024 1 31 0) 1) = true.
Proof.
  split; [reflexivity|].
  exact (period_contains_date (mkTimestamp 2024 1 31 0) "Feb-24"
           (mkTimestamp 2024 2 25 0) eq_refl eq_refl).
Defined.

(** The period end belongs to its own period: resolving it again gives
    the same label and the same period end. *)
Theorem period_end_fixed (d : Timestamp) (label : string)
    (period_end : Timestamp)
    (Hv : valid d = true)
    (Hp : get_supply_period d = Ok (label, period_end)) :
  get_supply_period period_end = Ok (label, period_end).
Proof.
  pose proof (get_supply_period_in_bounds d _ Hv Hp) as Hb.
  apply get_supply_period_inv in Hp; [|assumption]. destruct Hp as [-> ->].
  pose proof (period_end_spec_valid d Hv) as Hv'.
  pose proof (period_end_spec_day d) as Hd.
  rewrite get_supply_period_eq
    by (try assumption; apply period_end_spec_in_bounds; assumption).
  assert (period_end_spec (period_end_spec d) = period_end_spec d) as ->.
  { destruct (period_end_spec d) as [y m dd n]. cbn [day] in Hd. subst dd.
    reflexivity. }
  reflexivity.
Qed.

Lemma period_end_fixed_witness :
  get_supply_period (mkTimestamp 2024 1 25 0)
  = Ok ("Jan-24"%string, mkTimestamp 2024 1 25 0).
Proof.
  exact (period_end_fixed (mkTimestamp 2023 12 26 0) "Jan-24"
           (mkTimestamp 2024 1 25 0) eq_refl eq_refl).
Defined.

(** The periods follow the dates: a later date never gets an earlier
    period, and a date between another date and that date's period end
    gets the same period (the same period end day and the same label). *)
Theorem period_monotone (d1 d2 : Timestamp) (l1 l2 : string)
    (pe1 pe2 : Timestamp)
    (Hv1 : valid d1 = true) (Hv2 : valid d2 = true)
    (Hp1 : get_supply_period d1 = Ok (l1, pe1))
    (Hp2 : get_supply_period d2 = Ok (l2, pe2))
    (Hle : Calendar.leb d1 d2 = true) :
  Calendar.leb (normalize pe1) (normalize pe2) = true
  /\ (Calendar.leb d2 pe1 = true ->
      normalize pe2 = normalize pe1 /\ l2 = l1).
Proof.
  apply get_supply_period_inv in Hp1, Hp2; try assumption.
  destruct Hp1 as [-> ->], Hp2 as [-> ->].
  apply valid_fields in Hv1, Hv2.
  destruct Hv1 as (Hm1 & Hd1 & _), Hv2 as (Hm2 & Hd2 & _).
  rewrite leb_lex in Hle.
  destruct (period_end_spec_fields d1) as (Y1 & M1 & -> & C1).
  destruct (period_end_spec_fields d2) as (Y2 & M2 & -> & C2).
  split.
  - rewrite leb_lex. unfold lex_lt, normalize in *.
    cbn [year month day nanos] in *. lia.
  - intros Hin. rewrite leb_lex in Hin.
    unfold lex_lt in *. cbn [year month day nanos] in *.
    assert (Y2 = Y1 /\ M2 = M1) as [-> ->] by lia.
    split; reflexivity.
Qed.

Lemma period_monotone_witness :
  Calendar.leb (normalize (mkTimestamp 2024 1 25 5))
    (normalize (mkTimestamp 2024 1 25 0)) = true
  /\ (Calendar.leb (mkTimestamp 2024 1 20 0) (mkTimestamp 2024 1 25 5) = true ->
      normalize (mkTimestamp 2024 1 25 0) = normalize (mkTimestamp 2024 1 25 5)
      /\ "Jan-24"%string = "Jan-24"%string).
Proof.
  exact (period_monotone (mkTimestamp 2023 12 26 5) (mkTimestamp 2024 1 20 0)
           "Jan-24" "Jan-24" (mkTimestamp 2024 1 25 5) (mkTimestamp 2024 1 25 0)
           eq_refl eq_refl eq_refl eq_refl eq_refl).
Defined.

(** ** Labels read back *)

Section LabelFacts.

Lemma pivot_year_range (yy : Z) :
  0 <= yy < 100 ->
  1969 <= pivot_year yy <= 2068 /\ pivot_year yy mod 100 = yy.
Proof.
  intros H. unfold pivot_year.
  destruct (Z.leb_spec yy 68); Z.div_mod_to_equations; lia.
Qed.

End LabelFacts.

(** Writing a timestamp as a label and reading the label back never
    fails; it gives the first instant of the same month in the one year
    between 1969 and 2068 that has the same last two digits, which is the
    year itself exactly when the year is in that range. *)
Theorem label_round_trip (t : Timestamp) (Hm : 1 <= month t <= 12) :
  exists d,
    strptime_b_y (strftime_b_y t) = Ok d
    /\ month d = month t /\ day d = 1 /\ nanos d = 0
    /\ 1969 <= year d <= 2068
    /\ year d mod 100 = year t mod 100
    /\ (year d = year t <-> in_pivot_window t = true).
Proof.
  eexists. split; [apply strptime_strftime; exact Hm|].
  cbn [year month day nanos].
  assert (0 <= year t mod 100 < 100) as Hy by (apply Z.mod_pos_bound; lia).
  destruct (pivot_year_range _ Hy) as [Hr Hmod].
  repeat (split; [reflexivity || assumption|]).
  unfold in_pivot_window. rewrite andb_true_iff, !Z.leb_le. split.
  - intros E. lia.
  - intros W. apply pivot_year_window. exact W.
Qed.

Lemma label_round_trip_witness :
  exists d,
    strptime_b_y (strftime_b_y (mkTimestamp 2069 1 25 0)) = Ok d
    /\ month d = 1 /\ day d = 1 /\ nanos d = 0
    /\ 1969 <= year d <= 2068
    /\ year d mod 100 = 2069 mod 100
    /\ (year d = 2069 <-> in_pivot_window (mkTimestamp 2069 1 25 0) = true).
Proof.
  exact (label_round_trip (mkTimestamp 2069 1 25 0) ltac:(cbn; lia)).
Defined.

(** Two timestamps get the same label exactly when they have the same
    month and their years agree in the last two digits: intervals whose
    period ends are whole centuries apart share one label. *)
Theorem same_label_iff (a b : Timestamp)
    (Ha : 1 <= month a <= 12) (Hb : 1 <= month b <= 12) :
  strftime_b_y a = strftime_b_y b
  <-> month a = month b /\ year a mod 100 = year b mod 100.
Proof.
  split; [apply strftime_inj; assumption|].
  intros [Em Ey]. unfold strftime_b_y. rewrite Em, Ey. reflexivity.
Qed.

Lemma same_label_iff_witness :
  strftime_b_y (mkTimestamp 1924 3 25 0) = strftime_b_y (mkTimestamp 2024 3 25 0).
Proof.
  exact (proj2 (same_label_iff (mkTimestamp 1924 3 25 0)
                  (mkTimestamp 2024 3 25 0)
                  ltac:(cbn; lia) ltac:(cbn; lia))
           (conj eq_refl eq_refl)).
Defined.

(** ** The validation and the clip *)

Section ValidationFacts.

Local Open Scope float_scope.

(** A cell passes both tests of the validation exactly when it is NaN or
    between 0 and 100. *)
Lemma cell_passes (x : float) :
  (x <? 0) = false /\ (100 <? x) = false
  <-> is_nan x = true \/ ((0 <=? x) = true /\ (x <=? 100) = true).
Proof.
  split.
  - intros [H0 H100]. destruct (is_nan x) eqn:N; [left; reflexivity|].
    right. split; apply not_ltb_leb; assumption || reflexivity.
  - intros [N | [H0 H100]].
    + apply is_nan_Prim2SF, nan_of_Prim2SF in N. subst x.
      split; [apply ltb_nan_l | apply ltb_nan_r].
    + apply in_range_not_clipped; assumption.
Qed.

Lemma clip_passes (x : float) :
  (clip 0 100 x <? 0) = false /\ (100 <? clip 0 100 x) = false.
Proof.
  unfold clip. destruct (x <? 0) eqn:A; [split; reflexivity|].
  destruct (100 <? x) eqn:B; [split; reflexivity|].
  split; assumption.
Qed.

Lemma out_of_range_false (e : list GuaranteeRow) :
  out_of_range e = false
  <-> Forall (fun g => (Solar_Guarantee g <? 0) = false
                       /\ (100 <? Solar_Guarantee g) = false) e.
Proof.
  unfold out_of_range. rewrite orb_false_iff, Forall_forall. split.
  - intros [A B] g Hg. split.
    + destruct (Solar_Guarantee g <? 0) eqn:E; [|reflexivity].
      rewrite <- A. symmetry. apply existsb_exists. exists g. auto.
    + destruct (100 <? Solar_Guarantee g) eqn:E; [|reflexivity].
      rewrite <- B. symmetry. apply existsb_exists. exists g. auto.
  - intros H. split.
    + destruct (existsb (fun g => Solar_Guarantee g <? 0) e) eqn:E;
        [|reflexivity].
      apply existsb_exists in E. destruct E as (g & Hg & E).
      destruct (H g Hg) as [A _]. congruence.
    + destruct (existsb (fun g => 100 <? Solar_Guarantee g) e) eqn:E;
        [|reflexivity].
      apply existsb_exists in E. destruct E as (g & Hg & E).
      destruct (H g Hg) as [_ B]. congruence.
Qed.

End ValidationFacts.

(** The validation lets a guarantee table through exactly when every cell
    is between 0 and 100 or is NaN (an emptied cell): NaN cells are not
    caught. *)
Theorem validation_accepts (edited_df : list GuaranteeRow) :
  out_of_range edited_df = false
  <-> Forall (fun g =>
                is_nan (Solar_Guarantee g) = true
                \/ ((0 <=? Solar_Guarantee g)%float = true
                    /\ (Solar_Guarantee g <=? 100)%float = true))
        edited_df.
Proof.
  rewrite out_of_range_false, !Forall_forall.
  split; intros H g Hg; apply cell_passes, H, Hg.
Qed.

(** The clipped table passes the validation, clipping it again changes
    nothing, and a table that passes the validation is left as it is by
    the clip. *)
Theorem clip_guarantee_valid (edited_df : list GuaranteeRow) :
  out_of_range (clip_guarantee edited_df) = false
  /\ clip_guarantee (clip_guarantee edited_df) = clip_guarantee edited_df
  /\ (out_of_range edited_df = false -> clip_guarantee edited_df = edited_df).
Proof.
  assert (forall e, out_of_range e = false -> clip_guarantee e = e) as Hid.
  { intros e He. apply out_of_range_false in He.
    induction He as [|g e [A B] _ IH]; [reflexivity|].
    unfold clip_guarantee in *. cbn [map]. rewrite IH.
    unfold clip. rewrite A, B. destruct g; reflexivity. }
  assert (out_of_range (clip_guarantee edited_df) = false) as Hc.
  { apply out_of_range_false. unfold clip_guarantee.
    apply Forall_forall. intros g Hg. apply in_map_iff in Hg.
    destruct Hg as (g0 & <- & _). cbn [Solar_Guarantee]. apply clip_passes. }
  split; [exact Hc|]. split; [apply Hid; exact Hc | apply Hid].
Qed.

Lemma clip_guarantee_valid_witness :
  clip_guarantee default_solar_guarantee = default_solar_guarantee.
Proof.
  exact (proj2 (proj2 (clip_guarantee_valid default_solar_guarantee)) eq_refl).
Defined.

(** ** The merge and the run *)

Section RunFacts.

Lemma filter_hour_NoDup (e : list GuaranteeRow) (h : Z) :
  NoDup (map Hour e) ->
  filter (fun g => Hour g =? h) e = []
  \/ exists g, filter (fun g => Hour g =? h) e = [g].
Proof.
  induction e as [|g e IH]; intros Hn; [left; reflexivity|].
  cbn [map] in Hn. inversion Hn as [|? ? Hnin Hn']; subst.
  cbn [filter]. destruct (Z.eqb_spec (Hour g) h) as [E | E].
  - right. exists g. f_equal.
    destruct (filter (fun g => Hour g =? h) e) as [|g' gs] eqn:F; [reflexivity|].
    exfalso. apply Hnin.
    assert (In g' (filter (fun g => Hour g =? h) e)) as Hin
      by (rewrite F; left; reflexivity).
    apply filter_In in Hin. destruct Hin as [Hin Hh].
    apply Z.eqb_eq in Hh. rewrite E, <- Hh. apply in_map. exact Hin.
  - apply IH. exact Hn'.
Qed.

Lemma merge_row_single (b : bool) (e : list GuaranteeRow) (r : LoadRow) :
  NoDup (map Hour e) -> exists x, merge_row b e r = [mkMergedRow r x b].
Proof.
  intros Hn. unfold merge_row.
  destruct (filter_hour_NoDup e (hour r) Hn) as [-> | (g & ->)];
    eexists; reflexivity.
Qed.

Lemma merge_rows_loads (b : bool) (df : list LoadRow) (e : list GuaranteeRow) :
  NoDup (map Hour e) -> map load (flat_map (merge_row b e) df) = df.
Proof.
  intros Hn. induction df as [|r df IH]; [reflexivity|].
  cbn [flat_map]. rewrite map_app, IH.
  destruct (merge_row_single b e r Hn) as (x & ->). reflexivity.
Qed.

Lemma merge_left_loads (df : list LoadRow) (e : list GuaranteeRow) :
  NoDup (map Hour e) -> map load (merge_left df e) = df.
Proof. intros Hn. unfold merge_left. apply merge_rows_loads. exact Hn. Qed.

Lemma merge_row_cell (b : bool) (e : list GuaranteeRow) (r : LoadRow)
    (m : MergedRow) :
  In m (merge_row b e r) ->
  (exists g, In g e /\ Hour g = hour r /\ guarantee m = Solar_Guarantee g)
  \/ ((forall g, In g e -> Hour g <> hour r) /\ guarantee m = nan).
Proof.
  unfold merge_row.
  destruct (filter (fun g => Hour g =? hour r) e) as [|g0 gs] eqn:F.
  - intros [<- | []]. right. split; [|reflexivity].
    intros g Hg E.
    assert (In g (filter (fun g => Hour g =? hour r) e)) as Hin
      by (apply filter_In; split; [exact Hg | apply Z.eqb_eq; exact E]).
    rewrite F in Hin. destruct Hin.
  - intros Hm. apply in_map_iff in Hm. destruct Hm as (g & <- & Hg).
    rewrite <- F in Hg. apply filter_In in Hg. destruct Hg as [Hg E].
    apply Z.eqb_eq in E. left. exists g. auto.
Qed.

Lemma assign_supply_period_nonempty (df : list ChargedRow) (rows : list PeriodRow) :
  assign_supply_period df = Ok rows -> rows <> [].
Proof.
  unfold assign_supply_period.
  destruct (mapM _ df) as [l | e]; cbn [bind]; [|discriminate].
  destruct l; [discriminate|]. intros H. injection H as <-. discriminate.
Qed.

Lemma summarize_shape (df : list PeriodRow) (p : list SummaryRow) :
  summarize df = Ok p -> exists rows, p = rows ++ [grand_total rows].
Proof.
  unfold summarize.
  destruct (sort_by_period_date _) as [rows | e]; cbn [bind]; [|discriminate].
  destruct (_ =? _)%float; [discriminate|].
  intros H. injection H as <-. exists rows. reflexivity.
Qed.

Lemma script_calculated_inv (i : Inputs) (d : list DetailedRow)
    (p : list SummaryRow) :
  script i = Calculated d p ->
  exists df rows,
    uploaded_file i = Some df
    /\ out_of_range (edited_df i) = false
    /\ calculate_button i = true
    /\ assign_supply_period
         (map (calculate_charges (solar_rate i) (line_rental i) (admin_fee i))
            (merge_left df (edited_df i))) = Ok rows
    /\ summarize rows = Ok p
    /\ d = detailed_charges rows.
Proof.
  unfold script. destruct (uploaded_file i) as [df|]; [|discriminate].
  destruct (out_of_range (edited_df i)); [discriminate|].
  destruct (calculate_button i); [|discriminate].
  destruct (assign_supply_period _) as [rows | e] eqn:A; [|discriminate].
  destruct (summarize rows) as [p' | e] eqn:S; [|discriminate].
  intros H. injection H as <- <-. exists df, rows. repeat split; assumption.
Qed.

Lemma detailed_charges_perm (df : list PeriodRow) :
  Permutation (detailed_charges df)
    (map (fun r => mkDetailedRow (load (merged (charged r)))
                     (charges (charged r))) df).
Proof. unfold detailed_charges. apply sort_values_perm. Qed.

Lemma assign_supply_period_charged (df : list ChargedRow) (rows : list PeriodRow) :
  assign_supply_period df = Ok rows -> map charged rows = df.
Proof.
  unfold assign_supply_period.
  destruct (mapM _ df) as [l | e] eqn:M; cbn [bind]; [|discriminate].
  intros H. assert (rows = l) as -> by (destruct l; [discriminate | congruence]).
  clear H. revert l M. induction df as [|c df IH]; intros l M.
  - cbn in M. injection M as <-. reflexivity.
  - cbn [mapM] in M.
    destruct (get_supply_period (datetime (load (merged c)))) as [q | e];
      cbn [bind] in M; [|discriminate].
    destruct (mapM _ df) as [l' | e]; cbn [bind] in M; [|discriminate].
    injection M as <-. cbn [map charged]. rewrite (IH l' eq_refl). reflexivity.
Qed.


End RunFacts.

(** The merge keeps one row per load row, in the order of the load
    profile, when no hour occurs twice in the guarantee table; the
    guarantee cell of a merged row is the cell of its hour, or NaN when the
    table has no such hour. *)
Theorem merge_left_one_per_row (df : list LoadRow)
    (edited_df : list GuaranteeRow)
    (Hhours : NoDup (map Hour edited_df)) :
  map load (merge_left df edited_df) = df
  /\ Forall (fun m =>
               (exists g, In g edited_df /\ Hour g = hour (load m)
                          /\ guarantee m = Solar_Guarantee g)
               \/ ((forall g, In g edited_df -> Hour g <> hour (load m))
                   /\ guarantee m = nan))
       (merge_left df edited_df).
Proof.
  split; [apply merge_left_loads; exact Hhours|].
  apply Forall_forall. intros m Hm. apply merge_left_In in Hm.
  destruct Hm as (r & _ & Hm).
  rewrite (proj1 (merge_row_load _ _ _ _ Hm)).
  apply (merge_row_cell _ _ _ _ Hm).
Qed.

Lemma merge_left_one_per_row_witness :
  NoDup (map Hour default_solar_guarantee)
  /\ map load (merge_left unmatched_rows default_solar_guarantee)
     = unmatched_rows.
Proof.
  assert (NoDup (map Hour default_solar_guarantee)) as Hn.
  { cbn. repeat (constructor; [cbn; intuition discriminate|]). constructor. }
  split; [exact Hn|].
  exact (proj1 (merge_left_one_per_row unmatched_rows default_solar_guarantee Hn)).
Defined.



(** Whenever a run produces its tables, the detailed table has at least
    one row (so the branch that reports an empty detailed table before the
    export is never taken), it is in ascending order of [datetime], and the
    summary ends with the grand total of the rows before it. *)
Theorem calculated_tables (i : Inputs)
    (detailed_charges_df : list DetailedRow) (pivot_df : list SummaryRow)
    (Hrun : script i = Calculated detailed_charges_df pivot_df) :
  detailed_charges_df <> []
  /\ StronglySorted
       (fun a b => Calendar.leb (datetime (d_load a)) (datetime (d_load b)) = true)
       detailed_charges_df
  /\ exists rows, pivot_df = rows ++ [grand_total rows].
Proof.
  apply script_calculated_inv in Hrun.
  destruct Hrun as (df & rows & _ & _ & _ & Ha & Hs & ->).
  split; [|split].
  - apply assign_supply_period_nonempty in Ha. intros E. apply Ha.
    pose proof (detailed_charges_perm rows) as P. rewrite E in P.
    apply Permutation_nil in P. apply map_eq_nil in P. exact P.
  - unfold detailed_charges.
    apply (sort_values_sorted
             (fun a b => Calendar.leb (datetime (d_load a)) (datetime (d_load b)))).
    + intros a b. apply leb_total.
    + intros a b c. apply leb_trans.
  - apply summarize_shape in Hs. exact Hs.
Qed.

Lemma calculated_tables_witness :
  exists detailed_charges_df pivot_df rows,
    script zero_energy_run = Calculated detailed_charges_df pivot_df
    /\ detailed_charges_df <> []
    /\ pivot_df = rows ++ [grand_total rows].
Proof.
  eexists. eexists.
  assert (script zero_energy_run
          = Calculated
              (detailed_charges (period_frame zero_energy_run zero_energy_rows))
              (period_rows (period_frame zero_energy_run zero_energy_rows)
               ++ [grand_total
                     (period_rows (period_frame zero_energy_run zero_energy_rows))]))
    as Hs.
  { vm_compute. reflexivity. }
  destruct (calculated_tables _ _ _ Hs) as (Hne & _ & rows & Hp).
  exists rows. split; [exact Hs|]. split; [exact Hne | exact Hp].
Defined.

(** When no hour occurs twice in the guarantee table, the detailed table
    of a run holds exactly the rows of the load profile, each once, each
    with the charges Step 4 computes for it on the guarantee cell of its
    hour, in the arithmetic of the two columns. *)
Theorem detailed_rows_are_load_rows (i : Inputs) (df : list LoadRow)
    (detailed_charges_df : list DetailedRow) (pivot_df : list SummaryRow)
    (Hfile : uploaded_file i = Some df)
    (Hhours : NoDup (map Hour (edited_df i)))
    (Hrun : script i = Calculated detailed_charges_df pivot_df) :
  Permutation (map d_load detailed_charges_df) df
  /\ List.length detailed_charges_df = List.length df
  /\ Forall (fun r =>
               exists cell,
                 d_charges r
                 = charges
                     (calculate_charges (solar_rate i) (line_rental i)
                        (admin_fee i)
                        (mkMergedRow (d_load r) cell
                           (merged_int64 df (edited_df i))))
                 /\ ((exists g, In g (edited_df i)
                                /\ Hour g = hour (d_load r)
                                /\ cell = Solar_Guarantee g)
                     \/ ((forall g, In g (edited_df i) ->
                                    Hour g <> hour (d_load r))
                         /\ cell = nan)))
       detailed_charges_df.
Proof.
  apply script_calculated_inv in Hrun.
  destruct Hrun as (df' & rows & Hf & _ & _ & Ha & _ & ->).
  rewrite Hfile in Hf. injection Hf as <-.
  apply assign_supply_period_charged in Ha.
  pose proof (detailed_charges_perm rows) as P.
  assert (map d_load
            (map (fun r => mkDetailedRow (load (merged (charged r)))
                             (charges (charged r))) rows) = df) as Hl.
  { rewrite map_map. cbn [d_load].
    transitivity (map (fun c => load (merged c)) (map charged rows));
      [rewrite map_map; reflexivity|].
    rewrite Ha, map_map. cbn [calculate_charges merged].
    apply merge_left_loads. exact Hhours. }
  split; [|split].
  - apply (Permutation_map d_load) in P. rewrite Hl in P. exact P.
  - apply (Permutation_map d_load) in P. rewrite Hl in P.
    apply Permutation_length in P. rewrite length_map in P. exact P.
  - apply Forall_forall. intros r Hr.
    apply (Permutation_in _ P), in_map_iff in Hr.
    destruct Hr as (pr & <- & Hpr). cbn [d_load d_charges].
    apply (in_map charged) in Hpr. rewrite Ha in Hpr.
    apply in_map_iff in Hpr. destruct Hpr as (m & <- & Hm).
    exists (guarantee m). cbn [calculate_charges merged].
    apply merge_left_In in Hm. destruct Hm as (a & _ & Hm).
    destruct (merge_row_load _ _ _ _ Hm) as [El Eb].
    split.
    + destruct m as [lm gm bm]. cbn [load guarantee int64_product] in *.
      subst bm. reflexivity.
    + rewrite El. apply (merge_row_cell _ _ _ _ Hm).
Qed.

Lemma detailed_rows_are_load_rows_witness :
  exists detailed_charges_df,
    Permutation (map d_load detailed_charges_df) unmatched_rows
    /\ List.length detailed_charges_df = List.length unmatched_rows.
Proof.
  assert (NoDup (map Hour default_solar_guarantee)) as Hn.
  { cbn. repeat (constructor; [cbn; intuition discriminate|]). constructor. }
  assert (script unmatched_run
          = Calculated
              (detailed_charges (period_frame unmatched_run unmatched_rows))
              (period_rows (period_frame unmatched_run unmatched_rows)
               ++ [grand_total
                     (period_rows (period_frame unmatched_run unmatched_rows))]))
    as Hs.
  { vm_compute. reflexivity. }
  destruct (detailed_rows_are_load_rows unmatched_run unmatched_rows _ _
              eq_refl Hn Hs) as (P & L & _).
  eexists. split; [exact P | exact L].
Defined.


(** ** The rows of the summary *)

Section SummaryFacts.


Lemma strftime_congr (a b : Timestamp) :
  month a = month b -> year a mod 100 = year b mod 100 ->
  strftime_b_y a = strftime_b_y b.
Proof. intros Em Ey. unfold strftime_b_y. rewrite Em, Ey. reflexivity. Qed.


(** The labels of the per-period rows are labels [strftime] made. *)
Lemma period_rows_strftime_made (i : Inputs) (df : list LoadRow) (r : SummaryRow) :
  Forall (fun r => valid (datetime r) = true) df ->
  In r (period_rows (period_frame i df)) -> strftime_made (Period r).
Proof.
  intros Hv Hr. apply period_rows_label, in_map_iff in Hr.
  destruct Hr as (p & Ep & Hp).
  destruct (period_frame_labels i df p Hv Hp) as (a & _ & El & Hval).
  exists (period_end_spec (datetime a)).
  apply valid_fields in Hval. split; [tauto | congruence].
Qed.

Lemma strftime_made_parsed (s : string) :
  strftime_made s ->
  exists t, 1 <= month t <= 12 /\ s = strftime_b_y t
            /\ strptime_b_y s
               = Ok (mkTimestamp (pivot_year (year t mod 100)) (month t) 1 0).
Proof.
  intros (t & Hm & ->). exists t. split; [exact Hm|]. split; [reflexivity|].
  apply strptime_strftime. exact Hm.
Qed.




End SummaryFacts.

(** In the summary of a run that produces its tables every period label
    stands in one row only, and the label "Grand Total" in the last row
    only. *)
Theorem summary_labels_distinct (i : Inputs) (df : list LoadRow)
    (detailed_charges_df : list DetailedRow) (pivot_df : list SummaryRow)
    (Hfile : uploaded_file i = Some df)
    (Hvalid : Forall (fun r => valid (datetime r) = true) df)
    (Hrun : script i = Calculated detailed_charges_df pivot_df) :
  NoDup (map Period pivot_df)
  /\ last (map Period pivot_df) EmptyString = "Grand Total"%string.
Proof.
  destruct (script_summary i df _ _ Hfile Hvalid Hrun) as (-> & _ & _).
  set (rows := period_rows (period_frame i df)).
  rewrite map_app. cbn [map grand_total Period]. split.
  - apply NoDup_app; [apply period_rows_NoDup | repeat constructor; auto |].
    intros l Hl [<- | []]. apply in_map_iff in Hl. destruct Hl as (r & E & Hr).
    apply (period_rows_strftime_made i df r Hvalid) in Hr.
    apply strftime_made_not_grand_total in Hr. congruence.
  - apply last_last.
Qed.

Lemma summary_labels_distinct_witness :
  NoDup
    (map Period
       (period_rows (period_frame zero_energy_run zero_energy_rows)
        ++ [grand_total
              (period_rows (period_frame zero_energy_run zero_energy_rows))])).
Proof.
  refine (proj1 (summary_labels_distinct zero_energy_run zero_energy_rows
                   (detailed_charges (period_frame zero_energy_run zero_energy_rows))
                   _ eq_refl ltac:(repeat constructor) _)).
  vm_compute. reflexivity.
Defined.

(** Whatever the years of the load profile, the per-period rows of the
    summary of a run that produces its tables stand in strictly ascending
    order of the date their label is read back to: every label is read
    back without error, and the date of an earlier row is before the date
    of a later row. *)
Theorem summary_sorted_by_parsed_label (i : Inputs) (df : list LoadRow)
    (detailed_charges_df : list DetailedRow) (pivot_df : list SummaryRow)
    (Hfile : uploaded_file i = Some df)
    (Hvalid : Forall (fun r => valid (datetime r) = true) df)
    (Hrun : script i = Calculated detailed_charges_df pivot_df) :
  exists rows,
    pivot_df = rows ++ [grand_total rows]
    /\ Forall (fun r => exists d, strptime_b_y (Period r) = Ok d) rows
    /\ StronglySorted
         (fun ra rb =>
            forall da db,
              strptime_b_y (Period ra) = Ok da ->
              strptime_b_y (Period rb) = Ok db ->
              Calendar.ltb da db = true)
         rows.
Proof.
  destruct (script_summary i df _ _ Hfile Hvalid Hrun) as (Hp & _ & _).
  eexists. split; [exact Hp|]. clear Hp. split.
  - apply Forall_forall. intros r Hr.
    apply (period_rows_strftime_made i df r Hvalid), strftime_made_parsed in Hr.
    destruct Hr as (t & _ & _ & P). eexists. exact P.
  - eapply StronglySorted_impl_In; [|apply period_rows_sorted].
    intros ra rb Ha Hb [Hle Hne] da db Pa Pb.
    apply (period_rows_strftime_made i df ra Hvalid), strftime_made_parsed in Ha.
    apply (period_rows_strftime_made i df rb Hvalid), strftime_made_parsed in Hb.
    destruct Ha as (ta & Hma & Ea & Qa), Hb as (tb & Hmb & Eb & Qb).
    unfold supply_period_date in Hle. rewrite Pa, Pb in Hle.
    apply leb_ltb_of_ne; [exact Hle|].
    intros E. apply Hne. rewrite Ea, Eb.
    rewrite Qa in Pa. rewrite Qb in Pb.
    injection Pa as <-. injection Pb as <-. injection E as Ey Em.
    apply strftime_congr; [exact Em|].
    apply pivot_year_inj; try (apply Z.mod_pos_bound; lia). exact Ey.
Qed.

Lemma summary_sorted_by_parsed_label_witness :
  exists rows,
    period_rows (period_frame turn_of_2069_run turn_of_2069_rows)
    ++ [grand_total
          (period_rows (period_frame turn_of_2069_run turn_of_2069_rows))]
    = rows ++ [grand_total rows]
    /\ Forall (fun r => exists d, strptime_b_y (Period r) = Ok d) rows.
Proof.
  assert (script turn_of_2069_run
          = Calculated
              (detailed_charges (period_frame turn_of_2069_run turn_of_2069_rows))
              (period_rows (period_frame turn_of_2069_run turn_of_2069_rows)
               ++ [grand_total
                     (period_rows
                        (period_frame turn_of_2069_run turn_of_2069_rows))]))
    as Hs by (vm_compute; reflexivity).
  destruct (summary_sorted_by_parsed_label turn_of_2069_run turn_of_2069_rows
              _ _ eq_refl ltac:(repeat constructor) Hs) as (rows & Hp & Hf & _).
  exists rows. split; [exact Hp | exact Hf].
Defined.


(** ** Zero guarantee, and the chart data *)

(** An interval of an hour with a guarantee of 0 is billed at the spot
    tariff alone: for a finite energy and finite solar rate plus line
    rental, its solar energy and solar charge are zero, its non-solar
    energy is the energy, and its total charge is the non-solar charge
    (whenever that is a number). *)
Theorem zero_guarantee_charges (solar_rate line_rental admin_fee : float)
    (m : MergedRow) (c : Charges)
    (Hc : c = charges (calculate_charges solar_rate line_rental admin_fee m))
    (Henergy : is_finite (kWh (load m)) = true)
    (Hzero : (guarantee m =? 0)%float = true)
    (Hrate : is_finite (solar_rate + line_rental)%float = true) :
  (Solar_Consumption c =? 0)%float = true
  /\ (Solar_Charge c =? 0)%float = true
  /\ (Non_Solar_Consumption c =? kWh (load m))%float = true
  /\ (is_nan (Non_Solar_Charge c) = false ->
      (Total_Charge c =? Non_Solar_Charge c)%float = true).
Proof.
  subst c. cbn [calculate_charges charges Solar_Consumption
    Non_Solar_Consumption Solar_Charge Non_Solar_Charge Total_Charge].
  destruct (column_product_zero (int64_product m) _ _ Henergy Hzero) as [Hs _].
  assert ((column_product (int64_product m) (kWh (load m)) (guarantee m) / 100
           * (solar_rate + line_rental) =? 0)%float = true) as Hsc
    by (apply mul_zero_finite; assumption).
  split; [exact Hs|]. split; [exact Hsc|]. split.
  - apply sub_zero_eqb; assumption.
  - intros Hn. apply add_zero_l_eqb; assumption.
Qed.

Lemma zero_guarantee_charges_witness :
  (Total_Charge
     (charges (calculate_charges 2 1 0.5 (mkMergedRow (scenario_row 1) 0 true)))
   =? 10 * (5 + 0.5))%float = true.
Proof.
  exact (proj2 (proj2 (proj2
    (zero_guarantee_charges 2 1 0.5 (mkMergedRow (scenario_row 1) 0 true) _
       eq_refl eq_refl eq_refl eq_refl))) eq_refl).
Defined.

Section ChartFacts.

Lemma group_sum_all_nan (xs : list float) :
  Forall (fun x => is_nan x = true) xs -> group_sum xs = 0%float.
Proof.
  intros H. unfold group_sum.
  assert (forall acc, fold_left kahan_step xs acc = acc) as ->; [|reflexivity].
  induction H as [|x xs Hx _ IH]; intros acc; [reflexivity|].
  cbn [fold_left].
  assert (kahan_step acc x = acc) as ->
    by (destruct acc as [s c]; unfold kahan_step; rewrite Hx; reflexivity).
  apply IH.
Qed.

Lemma hourly_consumption_hours (d : list DetailedRow) :
  map h_hour (hourly_consumption d)
  = sort_values Z.leb (nodup Z.eq_dec (map (fun r => hour (d_load r)) d)).
Proof.
  unfold hourly_consumption. rewrite map_map. cbn [h_hour]. apply map_id.
Qed.

Lemma script_detailed_cell (i : Inputs) (d : list DetailedRow)
    (p : list SummaryRow) (r : DetailedRow) :
  script i = Calculated d p -> In r d ->
  (forall g, In g (edited_df i) -> Hour g <> hour (d_load r)) ->
  Solar_Consumption (d_charges r) = nan.
Proof.
  intros Hrun Hr Hno. apply script_calculated_inv in Hrun.
  destruct Hrun as (df & rows & _ & _ & _ & Ha & _ & ->).
  apply assign_supply_period_charged in Ha.
  apply (Permutation_in _ (detailed_charges_perm rows)), in_map_iff in Hr.
  destruct Hr as (pr & <- & Hpr). cbn [d_load d_charges] in *.
  apply (in_map charged) in Hpr. rewrite Ha in Hpr.
  apply in_map_iff in Hpr. destruct Hpr as (m & E & Hm).
  rewrite <- E in Hno |- *.
  cbn [calculate_charges merged charges Solar_Consumption] in *.
  pose proof (merge_left_int64 _ _ _ Hm) as Eb.
  pose proof (merge_left_load _ _ _ Hm) as Hin.
  apply merge_left_In in Hm. destruct Hm as (a & _ & Hm).
  destruct (merge_row_load _ _ _ _ Hm) as [El _].
  destruct (merge_row_cell _ _ _ _ Hm) as [(g & Hg & Eh & _) | [_ Eg]].
  - exfalso. apply (Hno g Hg). rewrite El. exact Eh.
  - rewrite (merged_int64_unmatched df (edited_df i) (load m) Hin Hno) in Eb.
    unfold column_product. rewrite Eb, Eg, mul_nan_r, div_nan_l. reflexivity.
Qed.

End ChartFacts.

(** The chart data has one row for every hour that occurs in the detailed
    table and no other, in strictly ascending order of the hour, and the
    non-solar consumption of a row is its energy minus its solar
    consumption. *)
Theorem hourly_consumption_rows (detailed_charges_df : list DetailedRow) :
  StronglySorted Z.lt (map h_hour (hourly_consumption detailed_charges_df))
  /\ (forall h,
         In h (map h_hour (hourly_consumption detailed_charges_df))
         <-> exists r, In r detailed_charges_df /\ hour (d_load r) = h)
  /\ Forall (fun row =>
               h_Non_Solar_Consumption row
               = (h_kWh row - h_Solar_Consumption row)%float)
       (hourly_consumption detailed_charges_df).
Proof.
  rewrite hourly_consumption_hours. split; [|split].
  - set (keys := nodup Z.eq_dec
                   (map (fun r => hour (d_load r)) detailed_charges_df)).
    assert (NoDup (map (fun h : Z => h) (sort_values Z.leb keys))) as Hn.
    { rewrite map_id. eapply Permutation_NoDup;
        [apply Permutation_sym, sort_values_perm | apply NoDup_nodup]. }
    pose proof (StronglySorted_NoDup (fun a b => (a <=? b) = true)
                  (fun h : Z => h) _ Hn
                  (sort_values_sorted Z.leb
                     (fun a b H => proj2 (Z.leb_le b a)
                                     ltac:(apply Z.leb_gt in H; lia))
                     (fun a b c H1 H2 => proj2 (Z.leb_le a c)
                                           ltac:(apply Z.leb_le in H1, H2; lia))
                     keys)) as Hs.
    eapply StronglySorted_impl_In; [|exact Hs].
    intros x y _ _ [Hle Hne]. apply Z.leb_le in Hle. lia.
  - intros h. rewrite sort_values_In, nodup_In, in_map_iff.
    split; intros (r & A & B); exists r; auto.
  - apply Forall_forall. intros row Hrow. unfold hourly_consumption in Hrow.
    apply in_map_iff in Hrow. destruct Hrow as (h & <- & _). reflexivity.
Qed.

(** For an hour the guarantee table does not have, the chart shows no
    solar consumption at all and the hour's whole energy as non-solar
    consumption, while the charges of that hour's intervals are NaN. *)
Theorem hourly_consumption_unmatched (i : Inputs)
    (detailed_charges_df : list DetailedRow) (pivot_df : list SummaryRow)
    (row : HourlyRow)
    (Hrun : script i = Calculated detailed_charges_df pivot_df)
    (Hrow : In row (hourly_consumption detailed_charges_df))
    (Hno : forall g, In g (edited_df i) -> Hour g <> h_hour row) :
  h_Solar_Consumption row = 0%float
  /\ h_Non_Solar_Consumption row = h_kWh row.
Proof.
  unfold hourly_consumption in Hrow. apply in_map_iff in Hrow.
  destruct Hrow as (h & <- & _).
  cbn [h_hour h_kWh h_Solar_Consumption h_Non_Solar_Consumption] in *.
  assert (group_sum
            (map (fun r => Solar_Consumption (d_charges r))
               (filter (fun r => hour (d_load r) =? h) detailed_charges_df))
          = 0%float) as E.
  { apply group_sum_all_nan, Forall_forall. intros x Hx.
    apply in_map_iff in Hx. destruct Hx as (r & <- & Hr).
    apply filter_In in Hr. destruct Hr as [Hr Eh]. apply Z.eqb_eq in Eh.
    rewrite (script_detailed_cell i _ _ r Hrun Hr); [reflexivity|].
    rewrite Eh. exact Hno. }
  rewrite E. split; [reflexivity | apply sub_zero_r].
Qed.

Lemma hourly_consumption_unmatched_witness :
  exists detailed_charges_df,
    In (mkHourlyRow 25 10 0 10) (hourly_consumption detailed_charges_df)
    /\ h_Solar_Consumption (mkHourlyRow 25 10 0 10) = 0%float
    /\ h_Non_Solar_Consumption (mkHourlyRow 25 10 0 10)
       = h_kWh (mkHourlyRow 25 10 0 10).
Proof.
  assert (script unmatched_run
          = Calculated
              (detailed_charges (period_frame unmatched_run unmatched_rows))
              (period_rows (period_frame unmatched_run unmatched_rows)
               ++ [grand_total
                     (period_rows (period_frame unmatched_run unmatched_rows))]))
    as Hs.
  { vm_compute. reflexivity. }
  assert (In (mkHourlyRow 25 10 0 10)
            (hourly_consumption
               (detailed_charges (period_frame unmatched_run unmatched_rows))))
    as Hin by (vm_compute; right; left; reflexivity).
  assert (forall g, In g (edited_df unmatched_run) -> Hour g <> 25) as Hno.
  { intros g Hg. cbn in Hg.
    repeat (destruct Hg as [<- | Hg]; [cbn; discriminate|]). destruct Hg. }
  eexists. split; [exact Hin|].
  exact (hourly_consumption_unmatched unmatched_run _ _ _ Hs Hin Hno).
Defined.

